(** * Kiro event-stream bridge: frame decoder, incremental reader,
      event translator and stream orchestrator.

    Shallow embedding of [src/kiro/aws-event-stream.js] (parseEventMessage,
    parseEventStream, parseEventStreamAsync, extractContentFromEvents), of
    [src/kiro/streaming-handler.js] (convertKiroEventToAnthropic,
    streamKiroResponse) and of the part of sendKiroMessage in
    [src/kiro/message-handler.js] that turns a response body into a message,
    and of mapModelToKiro in [src/kiro/request-builder.js], which both
    handlers call, with the properties of the design document that concern them.  The
    calls of the logger and the release of the stream reader are left out:
    they change neither the values returned nor the events yielded.  The
    arguments of those calls are evaluated all the same, and the one that
    can throw, the message the translator builds for a usage record, is
    kept. *)

From Stdlib Require Import ZArith Lia Bool.
From Stdlib Require Import Strings.Ascii Strings.String Strings.Byte.
From Stdlib Require Import Floats.PrimFloat.
From stdpp Require Import base list strings.

Local Open Scope Z_scope.

(** ** JavaScript values *)

(** What [JSON.parse] can return.  Numbers are binary64 floats; an object
    lists its keys in insertion order, each key once. *)
#[warnings="-register-all"]
Inductive JValue : Type :=
| JNull
| JBool (b : bool)
| JNum (x : float)
| JStr (s : string)
| JArr (items : list JValue)
| JObj (fields : list (string * JValue)).

(** Exceptions the modelled code can meet. *)
Inductive Error : Type := RangeError | TypeError | SyntaxError.

(** A computation that returns or throws. *)
Inductive Result (A : Type) : Type :=
| Return (a : A)
| Throw (e : Error).
Arguments Return {A} a.
Arguments Throw {A} e.

#[global] Instance Result_ret : MRet Result := fun A a => Return a.

#[global] Instance Result_bind : MBind Result := fun A B k m =>
  match m with
  | Return a => k a
  | Throw e => Throw e
  end.

(** How a loop ends: normally, by an exception, or not within the steps it was
    given. *)
Inductive Completion (A : Type) : Type :=
| Finished (a : A)
| Raised (e : Error)
| Exhausted.
Arguments Finished {A} a.
Arguments Raised {A} e.
Arguments Exhausted {A}.

(** [v === null] *)
Definition is_null (v : JValue) : bool :=
  match v with JNull => true | _ => false end.

(** ToBoolean: [null], [false], [0], [-0], [NaN] and the empty string are
    falsy; arrays and objects are truthy. *)
Definition truthy (v : JValue) : bool :=
  match v with
  | JNull => false
  | JBool b => b
  | JNum x => negb (PrimFloat.is_zero x || PrimFloat.is_nan x)
  | JStr s => negb (String.eqb s "")
  | JArr _ => true
  | JObj _ => true
  end.

(** ToBoolean of a value that may be [undefined] ([None]). *)
Definition truthy_opt (v : option JValue) : bool :=
  match v with
  | Some v => truthy v
  | None => false
  end.

Fixpoint lookup_field (key : string) (fields : list (string * JValue)) : option JValue :=
  match fields with
  | [] => None
  | (k, v) :: rest => if String.eqb k key then Some v else lookup_field key rest
  end.

(** [v.key] for a value that is not [null]: [undefined] ([None]) unless [v] is
    an object with that key.  None of the keys read by the translator is a
    property of a string, number, boolean or array. *)
Definition get (v : JValue) (key : string) : option JValue :=
  match v with
  | JObj fields => lookup_field key fields
  | _ => None
  end.

(** [v?.key] *)
Definition get_opt (v : option JValue) (key : string) : option JValue :=
  match v with
  | Some JNull => None
  | Some v => get v key
  | None => None
  end.

(** [v !== undefined] *)
Definition defined (v : option JValue) : bool :=
  match v with Some _ => true | None => false end.

(** The string [v] when [v !== undefined && typeof v === 'string']. *)
Definition as_string (v : option JValue) : option string :=
  match v with Some (JStr s) => Some s | _ => None end.

(** [a || b], where [b] may be [undefined] too. *)
Definition or_opt (a b : option JValue) : option JValue :=
  if truthy_opt a then a else b.

(** [a || b] with a defined right operand. *)
Definition or_else (a : option JValue) (b : JValue) : JValue :=
  match a with
  | Some v => if truthy v then v else b
  | None => b
  end.

(** Whether ToString([v]) returns, as a template literal needs of each of its
    values.  A primitive and [undefined] always convert.  An object converts
    through its [toString] property: one from [JSON.parse] inherits a
    function that answers ["[object Object]"], unless it has a key
    [toString] of its own; the value of that key is no function, and
    [valueOf], inherited or not, gives no primitive either, so the
    conversion throws a TypeError.  An array joins the conversions of its
    elements, [null] counting as the empty string. *)
Fixpoint ToString_returns (v : JValue) : bool :=
  match v with
  | JArr items => forallb ToString_returns items
  | JObj fields => negb (defined (lookup_field "toString" fields))
  | _ => true
  end.

(** The same for a value that may be [undefined], which converts. *)
Definition ToString_returns_opt (v : option JValue) : bool :=
  match v with
  | Some v => ToString_returns v
  | None => true
  end.

(** ** Byte buffers *)

Definition byteLength (buffer : list byte) : Z := Z.of_nat (length buffer).

Definition byteAt (buffer : list byte) (i : Z) : Z :=
  match buffer !! Z.to_nat i with
  | Some b => Z.of_N (Byte.to_N b)
  | None => 0
  end.

(** The big-endian unsigned 32-bit integer stored at [pos]. *)
Definition u32be (buffer : list byte) (pos : Z) : Z :=
  byteAt buffer pos * 16777216 + byteAt buffer (pos + 1) * 65536
  + byteAt buffer (pos + 2) * 256 + byteAt buffer (pos + 3).

(** [new DataView(buffer, byteOffset)] *)
Record DataView : Type := mkDataView { dv_buffer : list byte; dv_byteOffset : Z }.

Definition newDataView (buffer : list byte) (byteOffset : Z) : Result DataView :=
  if (byteOffset <? 0) || (byteOffset >? byteLength buffer) then Throw RangeError
  else Return (mkDataView buffer byteOffset).

(** [view.getUint32(pos)] *)
Definition getUint32 (view : DataView) (pos : Z) : Result Z :=
  if (pos <? 0) || (dv_byteOffset view + pos + 4 >? byteLength (dv_buffer view))
  then Throw RangeError
  else Return (u32be (dv_buffer view) (dv_byteOffset view + pos)).

(** [new Uint8Array(buffer, byteOffset, length)] *)
Definition newUint8Array (buffer : list byte) (byteOffset len : Z) : Result (list byte) :=
  if (byteOffset <? 0) || (len <? 0) || (byteOffset + len >? byteLength buffer)
  then Throw RangeError
  else Return (take (Z.to_nat len) (drop (Z.to_nat byteOffset) buffer)).

(** [buffer.slice(start, end)] for non-negative bounds: clamps, never throws. *)
Definition slice (buffer : list byte) (start stop : Z) : list byte :=
  take (Z.to_nat (stop - start)) (drop (Z.to_nat start) buffer).

(** [buffer.slice(start)] *)
Definition slice_from (buffer : list byte) (start : Z) : list byte :=
  drop (Z.to_nat start) buffer.

(** ** Canonical events *)

(** [content_block]: [{ type: 'text', text }] or
    [{ type: 'tool_use', id, name, input: {} }]; [name] may be [undefined]. *)
Inductive ContentBlock : Type :=
| TextBlock (text : string)
| ToolUseBlock (id : JValue) (name : option JValue).

(** [delta] of a [content_block_delta]: [{ type: 'text_delta', text }] or
    [{ type: 'input_json_delta', partial_json }]. *)
Inductive Delta : Type :=
| TextDelta (text : JValue)
| InputJsonDelta (partial_json : string).

(** [usage] of a [message_delta]; the closing one has no [input_tokens]. *)
Record Usage : Type := mkUsage {
  input_tokens : option JValue;
  output_tokens : JValue
}.

(** The events, by their [type].  Of [message_start] the message id and the
    model are kept, the other fields are constants; [stop_reason] is [None]
    for the [delta: {}] of the translator. *)
Inductive Event : Type :=
| message_start (id : string) (model : string)
| content_block_start (index : Z) (content_block : ContentBlock)
| content_block_delta (index : Z) (delta : Delta)
| content_block_stop (index : Z)
| message_delta (stop_reason : option string) (usage : Usage)
| message_stop.

Definition is_message_start (e : Event) : bool :=
  match e with message_start _ _ => true | _ => false end.

Definition is_message_stop (e : Event) : bool :=
  match e with message_stop => true | _ => false end.

Definition is_content_block_start (e : Event) : bool :=
  match e with content_block_start _ _ => true | _ => false end.

Definition is_content_block_stop (e : Event) : bool :=
  match e with content_block_stop _ => true | _ => false end.

(** [evt.usage] *)
Definition evt_usage (e : Event) : option Usage :=
  match e with message_delta _ u => Some u | _ => None end.

(** One decoded frame: [{ data, nextOffset }]. *)
Record Frame : Type := mkFrame { data : JValue; nextOffset : Z }.

(** ** The one-shot response *)

(** A tool invocation as extractContentFromEvents records it:
    [{ id, name, input }], each of them possibly [undefined]. *)
Record ToolUse : Type := mkToolUse {
  tool_id : option JValue;
  tool_name : option JValue;
  tool_input : option JValue
}.

(** What extractContentFromEvents returns: [{ content, usage, toolUses }]. *)
Record Extracted : Type := mkExtracted {
  fullContent : string;
  extractedUsage : Usage;
  toolUses : list ToolUse
}.

(** A block of the message content: [{ type: 'text', text }] or
    [{ type: 'tool_use', id, name, input }]. *)
Inductive ResponseBlock : Type :=
| TextContent (text : string)
| ToolUseContent (id : JValue) (name : option JValue) (input : JValue).


(** The message sendKiroMessage returns; [type], [role] and [stop_sequence]
    are constants. *)
Record Message : Type := mkMessage {
  message_id : string;
  message_model : string;
  message_content : list ResponseBlock;
  message_stop_reason : string;
  message_usage : Usage
}.

(** [unit === 'credit'] *)
Definition is_credit (unit : option JValue) : bool :=
  match unit with
  | Some (JStr s) => String.eqb s "credit"
  | _ => false
  end.

(** ** Model names *)

(** [s.includes(sub)] *)
Fixpoint includes (s sub : string) : bool :=
  String.prefix sub s
  || match s with
     | EmptyString => false
     | String _ rest => includes rest sub
     end.

(** The own properties of [KIRO_MODEL_MAPPING] in constants.js. *)
Definition KIRO_MODEL_MAPPING : list (string * string) :=
  [("claude-sonnet-4-5", "claude-sonnet-4.5");
   ("claude-sonnet-4-5-thinking", "claude-sonnet-4.5");
   ("claude-sonnet-4", "claude-sonnet-4");
   ("claude-sonnet-4-thinking", "claude-sonnet-4");
   ("claude-haiku-4-5", "claude-haiku-4.5");
   ("claude-opus-4-5", "claude-opus-4.5");
   ("claude-opus-4-5-thinking", "claude-opus-4.5");
   ("auto", "auto")]%string.

(** An own property of the mapping. *)
Fixpoint own_property (key : string) (mapping : list (string * string)) : option string :=
  match mapping with
  | [] => None
  | (k, v) :: rest => if String.eqb k key then Some v else own_property key rest
  end.

(** The properties an object literal inherits from [Object.prototype]; each
    is a function or an object, so truthy. *)
Definition Object_prototype_keys : list string :=
  ["constructor"; "__defineGetter__"; "__defineSetter__"; "hasOwnProperty";
   "__lookupGetter__"; "__lookupSetter__"; "isPrototypeOf"; "propertyIsEnumerable";
   "toString"; "valueOf"; "__proto__"; "toLocaleString"]%string.

(** What mapModelToKiro returns: a model id, or the inherited property of
    [KIRO_MODEL_MAPPING] the name happens to select. *)
Inductive KiroModel : Type :=
| ModelId (id : string)
| InheritedProperty (key : string).

(** The ids mapModelToKiro is meant to return. *)
Definition kiro_ids : list string :=
  ["claude-sonnet-4.5"; "claude-sonnet-4"; "claude-haiku-4.5"; "claude-opus-4.5";
   "auto"]%string.

(** [s.replace(/-/g, '')] *)
Fixpoint remove_dashes (s : string) : string :=
  match s with
  | EmptyString => EmptyString
  | String c rest =>
      if Ascii.eqb c "-"%char then remove_dashes rest else String c (remove_dashes rest)
  end.

(** ** Reading an event sequence *)

Definition count (p : Event -> bool) (events : list Event) : nat :=
  length (List.filter p events).

(** Runs through the block events of a sequence.  [open] is the index of the
    block that is open, if any.  A start needs every block closed, a stop
    needs the block of its index open; the result is the block left open at
    the end, or [None] when one of the two was violated. *)
Fixpoint blocks_run (open : option Z) (events : list Event) : option (option Z) :=
  match events with
  | [] => Some open
  | content_block_start i _ :: rest =>
      match open with
      | None => blocks_run (Some i) rest
      | Some _ => None
      end
  | content_block_stop i :: rest =>
      match open with
      | Some j => if i =? j then blocks_run None rest else None
      | None => None
      end
  | _ :: rest => blocks_run open rest
  end.

(** Every start is followed by its stop before any other start or stop, and
    no block is left open. *)
Definition blocks_matched (events : list Event) : Prop :=
  blocks_run None events = Some None.

(** The block a sequence leaves open: the index of its last start, unless a
    stop follows it. *)
Fixpoint open_after (open : option Z) (events : list Event) : option Z :=
  match events with
  | [] => open
  | content_block_start i _ :: rest => open_after (Some i) rest
  | content_block_stop _ :: rest => open_after None rest
  | _ :: rest => open_after open rest
  end.

(** The output-token values of the usage-bearing events, oldest first. *)
Definition usage_outputs (events : list Event) : list JValue :=
  omap (fun e => output_tokens <$> evt_usage e) events.

(** The last output-token value observed, 0 if there is none. *)
Definition last_output (events : list Event) : JValue :=
  default (JNum 0) (last (usage_outputs events)).

(** The last output-token value observed that is truthy (not 0), 0 if there
    is none. *)
Definition last_truthy_output (events : list Event) : JValue :=
  default (JNum 0) (last (List.filter truthy (usage_outputs events))).

(** The closing [message_delta]: it carries a stop reason. *)
Definition is_final_delta (e : Event) : bool :=
  match e with message_delta (Some _) _ => true | _ => false end.

(** ** Sample platform functions and inputs for the closed examples *)

(** [TextDecoder.decode] on ASCII bytes. *)
Definition sample_decode (bytes : list byte) : string := string_of_list_byte bytes.

(** [{ content: text }] *)
Definition content_payload (text : string) : JValue :=
  JObj [("content"%string, JStr text)].

(** The double quote, as a string. *)
Definition dq : string := String (ascii_of_nat 34) EmptyString.

(** The JSON text of [{ content: text }], for a [text] that needs no
    escaping. *)
Definition content_text (text : string) : string :=
  "{" +:+ dq +:+ "content" +:+ dq +:+ ":" +:+ dq +:+ text +:+ dq +:+ "}".

(** [JSON.parse] on the texts of the examples: the three keywords, the two
    content objects, and text that is not JSON.  The examples apply it to no
    other text. *)
Definition sample_parse (text : string) : Result JValue :=
  if String.eqb text "null" then Return JNull
  else if String.eqb text "true" then Return (JBool true)
  else if String.eqb text "false" then Return (JBool false)
  else if String.eqb text (content_text "Hello ") then Return (content_payload "Hello ")
  else if String.eqb text (content_text "world") then Return (content_payload "world")
  else Throw SyntaxError.

(** [JSON.stringify] on the empty object; the examples apply it to no other
    value. *)
Definition sample_stringify (v : JValue) : string := "{}".

(** A generator that returns the same version-4 UUID at every call. *)
Definition sample_uuid (n : nat) : string := "123e4567-e89b-42d3-a456-426614174000".

(** Number::toString on 0; the examples convert no other number. *)
Definition sample_Number_toString (x : float) : string := "0".

(** StringToNumber on the empty string and on text that is no numeral; the
    examples convert no other text. *)
Definition sample_StringToNumber (text : string) : float :=
  if String.eqb text "" then 0%float else nan.

(** [Math.round] on whole numbers; the examples round no other number. *)
Definition sample_round (x : float) : float := x.

(** [toLowerCase] on ASCII text. *)
Definition sample_toLowerCase (s : string) : string :=
  string_of_list_ascii
    (map (fun c => let n := nat_of_ascii c in
                   if (65 <=? n)%nat && (n <=? 90)%nat then ascii_of_nat (n + 32) else c)
       (list_ascii_of_string s)).

Definition byte_of_Z (z : Z) : byte :=
  default x00 (Byte.of_N (Z.to_N (z mod 256))).

(** The four bytes of a big-endian unsigned 32-bit integer. *)
Definition be32 (n : Z) : list byte :=
  [byte_of_Z (n / 16777216); byte_of_Z (n / 65536); byte_of_Z (n / 256); byte_of_Z n].

(** The frame without headers around [payload].  Both checksums are left 0:
    the code reads neither. *)
Definition frame_of (payload : list byte) : list byte :=
  be32 (16 + Z.of_nat (length payload)) ++ be32 0 ++ be32 0 ++ payload ++ be32 0.

(** The frame whose payload is the JSON text [null]. *)
Definition null_frame : list byte := frame_of (list_byte_of_string "null").

(** The frame whose payload is the JSON text [true]. *)
Definition true_frame : list byte := frame_of (list_byte_of_string "true").

(** A frame whose payload is not JSON. *)
Definition oops_frame : list byte := frame_of (list_byte_of_string "oops").

(** [payload.length > 0] *)
Definition has_bytes (payload : list byte) : bool :=
  match payload with [] => false | _ :: _ => true end.

(** A frame without payload. *)
Definition empty_frame : list byte := frame_of [].

(** Twelve zero bytes: a prelude that declares a total length of 0. *)
Definition zero_prelude : list byte := replicate 12 x00.

(** [{ toolUseEvent: { toolUseId: id, name: name } }] *)
Definition tool_payload (id name : string) : JValue :=
  JObj [("toolUseEvent"%string,
         JObj [("toolUseId"%string, JStr id); ("name"%string, JStr name)])].

(** [{ tokenUsage: { outputTokens: n } }] *)
Definition usage_payload (n : float) : JValue :=
  JObj [("tokenUsage"%string, JObj [("outputTokens"%string, JNum n)])].

(** The usage record [{ unit: "credit", usage: n }]. *)
Definition credit_payload (n : float) : JValue :=
  JObj [("unit"%string, JStr "credit"); ("usage"%string, JNum n)].

(** The usage record [{ usage: { toString: 0 }, unit: "credit" }], whose
    [usage] cannot be converted to a string. *)
Definition unprintable_payload : JValue :=
  JObj [("usage"%string, JObj [("toString"%string, JNum 0)]);
        ("unit"%string, JStr "credit")].

Section Bridge.

(** Platform functions the code calls. *)
Variable TextDecoder_decode : list byte -> string.
Variable JSON_parse : string -> Result JValue.
Variable JSON_stringify : JValue -> string.
(** [randomUUID n]: what the [n]-th call of [crypto.randomUUID()] returns. *)
Variable randomUUID : nat -> string.
(** Number::toString, the text of a number. *)
Variable Number_toString : float -> string.
(** StringToNumber, the number a text stands for. *)
Variable StringToNumber : string -> float.
Variable Math_round : float -> float.
Variable toLowerCase : string -> string.

(** *** aws-event-stream.js *)

(** The [try { JSON.parse } catch { raw }] of both parsers. *)
Definition decodePayload (bytes : list byte) : JValue :=
  let payload := TextDecoder_decode bytes in
  match JSON_parse payload with
  | Return v => v
  | Throw _ => JObj [("raw"%string, JStr payload)]
  end.

(** [None] is the [null] result: not enough bytes yet. *)
Definition parseEventMessage (buffer : list byte) (offset : Z) : Result (option Frame) :=
  if offset + 12 >? byteLength buffer then Return None
  else
    view ← newDataView buffer offset;
    totalLength ← getUint32 view 0;
    headersLength ← getUint32 view 4;
    if offset + totalLength >? byteLength buffer then Return None
    else
      let payloadOffset := offset + 12 + headersLength in
      let payloadLength := totalLength - headersLength - 16 in
      if payloadLength <=? 0 then
        Return (Some (mkFrame JNull (offset + totalLength)))
      else
        bytes ← newUint8Array buffer payloadOffset payloadLength;
        Return (Some (mkFrame (decodePayload bytes) (offset + totalLength))).

(** The [while (offset < buffer.byteLength)] loop of parseEventStream, run for
    at most [fuel] iterations. *)
Fixpoint parseEventStream_loop (fuel : nat) (buffer : list byte) (offset : Z)
    (events : list JValue) : Completion (list JValue) :=
  match fuel with
  | O => Exhausted
  | S fuel' =>
      if offset <? byteLength buffer then
        match parseEventMessage buffer offset with
        | Throw e => Raised e
        | Return None => Finished events
        | Return (Some result) =>
            parseEventStream_loop fuel' buffer (nextOffset result)
              (if is_null (data result) then events else events ++ [data result])
        end
      else Finished events
  end.

(** Every iteration that goes on moves the offset forward by at least one
    byte unless it stays where it is for ever, so [S (length buffer)]
    iterations are enough whenever the loop ends at all (see
    [parseEventStream_loop_exhausted]). *)
Definition parseEventStream (buffer : list byte) : Completion (list JValue) :=
  parseEventStream_loop (S (length buffer)) buffer 0 [].

(** The inner [while (offset < buffer.length)] loop of parseEventStreamAsync:
    the payloads it yields, and the offset it stops at.  [buffer] is a fresh
    [Uint8Array] each time, so its [byteOffset] is 0. *)
Fixpoint scan_loop (fuel : nat) (buffer : list byte) (offset : Z)
    : list JValue * Completion Z :=
  match fuel with
  | O => ([], Exhausted)
  | S fuel' =>
      if offset <? byteLength buffer then
        if offset + 12 >? byteLength buffer then ([], Finished offset)
        else
          match (view ← newDataView buffer offset;
                 totalLength ← getUint32 view 0;
                 Return (view, totalLength)) with
          | Throw e => ([], Raised e)
          | Return (view, totalLength) =>
              if offset + totalLength >? byteLength buffer then ([], Finished offset)
              else
                match getUint32 view 4 with
                | Throw e => ([], Raised e)
                | Return headersLength =>
                    let payloadOffset := offset + 12 + headersLength in
                    let payloadLength := totalLength - headersLength - 16 in
                    let yielded :=
                      if payloadLength >? 0 then
                        [decodePayload (slice buffer payloadOffset (payloadOffset + payloadLength))]
                      else [] in
                    let '(more, final) := scan_loop fuel' buffer (offset + totalLength) in
                    (yielded ++ more, final)
                end
          end
      else ([], Finished offset)
  end.

(** One turn of the outer loop after [reader.read()] returned [value]: append,
    scan, keep the unprocessed tail. *)
Definition read_chunk (buffer value : list byte) : list JValue * Completion (list byte) :=
  let buffer := buffer ++ value in
  match scan_loop (S (length buffer)) buffer 0 with
  | (yielded, Finished offset) =>
      (yielded, Finished (if offset >? 0 then slice_from buffer offset else buffer))
  | (yielded, Raised e) => (yielded, Raised e)
  | (yielded, Exhausted) => (yielded, Exhausted)
  end.

(** The generator run on a stream that delivers [chunks] and then ends. *)
Fixpoint parseEventStreamAsync_from (buffer : list byte) (chunks : list (list byte))
    : list JValue * Completion unit :=
  match chunks with
  | [] => ([], Finished tt)
  | value :: rest =>
      match read_chunk buffer value with
      | (yielded, Finished buffer') =>
          let '(more, final) := parseEventStreamAsync_from buffer' rest in
          (yielded ++ more, final)
      | (yielded, Raised e) => (yielded, Raised e)
      | (yielded, Exhausted) => (yielded, Exhausted)
      end
  end.

Definition parseEventStreamAsync (chunks : list (list byte)) : list JValue * Completion unit :=
  parseEventStreamAsync_from [] chunks.

(** *** streaming-handler.js *)

(** [prefix + crypto.randomUUID().replace(/-/g, '').substring(0, 24)], for the
    [n]-th call of [randomUUID]. *)
Definition synthetic_id (prefix : string) (n : nat) : string :=
  prefix +:+ substring 0 24 (remove_dashes (randomUUID n)).

(** The translator step.  [draws] counts the calls of [randomUUID] made so
    far.  It throws in two places: reading [eventData.content] when
    [eventData] is [null], and building the message it logs for a usage
    record, a template literal of [eventData.usage] and of
    [eventData.unitPlural || eventData.unit], when one of the two cannot be
    converted to a string. *)
Definition convertKiroEventToAnthropic (eventData : JValue) (blockIndex : Z)
    (hasOpenBlock : bool) (draws : nat) : Result (list Event * nat) :=
  if is_null eventData then Throw TypeError
  else
  match as_string (get eventData "content") with
  | Some text =>
      Return ([content_block_delta blockIndex (TextDelta (JStr text))], draws)
  | None =>
  let assistantResponseEvent := get eventData "assistantResponseEvent" in
  if truthy_opt assistantResponseEvent then
    let content := get_opt assistantResponseEvent "content" in
    match content with
    | Some text =>
        if truthy text then
          Return ([content_block_delta blockIndex (TextDelta text)], draws)
        else Return ([], draws)
    | None => Return ([], draws)
    end
  else
  if defined (get eventData "usage") && defined (get eventData "unit") then
    (* `${eventData.usage} ${eventData.unitPlural || eventData.unit}` *)
    if ToString_returns_opt (get eventData "usage")
       && ToString_returns_opt (or_opt (get eventData "unitPlural") (get eventData "unit"))
    then Return ([], draws)
    else Throw TypeError
  else
  let usage := or_opt (get_opt (get eventData "metadataEvent") "tokenUsage")
                      (get eventData "tokenUsage") in
  if truthy_opt usage then
    Return ([message_delta None
               (mkUsage (Some (or_else (get_opt usage "inputTokens") (JNum 0)))
                        (or_else (get_opt usage "outputTokens") (JNum 0)))],
            draws)
  else
  let toolUse := or_opt (get eventData "toolUseEvent") (get eventData "toolUse") in
  if truthy_opt toolUse then
    let closing := if hasOpenBlock then [content_block_stop blockIndex] else [] in
    let newBlockIndex := blockIndex + 1 in
    let toolUseId := get_opt toolUse "toolUseId" in
    let id := or_else toolUseId (JStr (synthetic_id "toolu_" draws)) in
    let draws' := if truthy_opt toolUseId then draws else S draws in
    let start :=
      [content_block_start newBlockIndex (ToolUseBlock id (get_opt toolUse "name"))] in
    let input :=
      match get_opt toolUse "input" with
      | Some input =>
          if truthy input then
            [content_block_delta newBlockIndex (InputJsonDelta (JSON_stringify input))]
          else []
      | None => []
      end in
    Return (closing ++ start ++ input ++ [content_block_stop newBlockIndex], draws')
  else
  let codeEvent := get eventData "codeEvent" in
  if truthy_opt codeEvent then
    Return ([content_block_delta blockIndex
               (TextDelta (or_else (get_opt codeEvent "content") (JStr "")))],
            draws)
  else Return ([], draws)
  end.

(** The local variables of streamKiroResponse. *)
Record StreamState : Type := mkStreamState {
  contentBlockIndex : Z;
  hasStarted : bool;
  hasOpenBlock : bool;
  inputTokens : JValue;
  outputTokens : JValue;
  draws : nat
}.

(** [st] after the translator made its calls of [randomUUID]. *)
Definition with_draws (st : StreamState) (draws' : nat) : StreamState :=
  mkStreamState (contentBlockIndex st) (hasStarted st) (hasOpenBlock st)
    (inputTokens st) (outputTokens st) draws'.

(** The body of [for (const evt of anthropicEvents)], before the [yield]. *)
Definition track (st : StreamState) (evt : Event) : StreamState :=
  let open1 := if is_content_block_start evt then true else hasOpenBlock st in
  let open2 := if is_content_block_stop evt then false else open1 in
  match evt_usage evt with
  | Some usage =>
      mkStreamState (contentBlockIndex st) (hasStarted st) open2
        (or_else (input_tokens usage) (inputTokens st))
        (or_else (Some (output_tokens usage)) (outputTokens st))
        (draws st)
  | None =>
      mkStreamState (contentBlockIndex st) (hasStarted st) open2
        (inputTokens st) (outputTokens st) (draws st)
  end.

(** The [for await] loop over the payloads the reader has yielded: the events
    yielded, and the state the loop ends in unless the translator throws. *)
Fixpoint stream_loop (messageId requestModel : string) (st : StreamState)
    (payloads : list JValue) : list Event * Result StreamState :=
  match payloads with
  | [] => ([], Return st)
  | event :: rest =>
      let '(opening, st1) :=
        if hasStarted st then ([], st)
        else ([message_start messageId requestModel;
               content_block_start (contentBlockIndex st) (TextBlock "")],
              mkStreamState (contentBlockIndex st) true true
                (inputTokens st) (outputTokens st) (draws st)) in
      match convertKiroEventToAnthropic event (contentBlockIndex st1)
              (hasOpenBlock st1) (draws st1) with
      | Throw e => (opening, Throw e)
      | Return (anthropicEvents, draws') =>
          let st2 := fold_left track anthropicEvents (with_draws st1 draws') in
          let '(more, final) := stream_loop messageId requestModel st2 rest in
          (opening ++ anthropicEvents ++ more, final)
      end
  end.

Definition initial_state : StreamState :=
  mkStreamState 0 false false (JNum 0) (JNum 0) 1.

(** What is yielded once the source is exhausted. *)
Definition closing_events (st : StreamState) : list Event :=
  (if hasOpenBlock st then [content_block_stop (contentBlockIndex st)] else [])
  ++ [message_delta (Some "end_turn"%string) (mkUsage None (outputTokens st));
      message_stop].

(** The generator run to its end on a source that yields [fst source] and then
    ends as [snd source] says.  The [catch] block logs and throws again. *)
Definition streamKiroResponse (requestModel : string)
    (source : list JValue * Completion unit) : list Event * Completion unit :=
  let messageId := synthetic_id "msg_" 0 in
  match stream_loop messageId requestModel initial_state (fst source) with
  | (events, Throw e) => (events, Raised e)
  | (events, Return st) =>
      match snd source with
      | Finished _ => (events ++ closing_events st, Finished tt)
      | Raised e => (events, Raised e)
      | Exhausted => (events, Exhausted)
      end
  end.

(** *** Conversions *)

(** ToString([v]).  See [ToString_returns] for the objects; an array joins
    the conversions of its elements with commas, [null] counting as the
    empty string. *)
Fixpoint ToString (v : JValue) : Result string :=
  match v with
  | JNull => Return "null"%string
  | JBool b => Return (if b then "true" else "false")%string
  | JNum x => Return (Number_toString x)
  | JStr s => Return s
  | JArr items =>
      (fix join (items : list JValue) : Result string :=
         match items with
         | [] => Return ""%string
         | item :: rest =>
             text ← (if is_null item then Return ""%string else ToString item);
             match rest with
             | [] => Return text
             | _ :: _ => more ← join rest; Return (text +:+ "," +:+ more)
             end
         end) items
  | JObj fields =>
      if defined (lookup_field "toString" fields) then Throw TypeError
      else Return "[object Object]"%string
  end.

(** ToNumber([v]).  An object or an array is converted through [valueOf],
    which gives no primitive, and then through [toString]. *)
Definition ToNumber (v : JValue) : Result float :=
  match v with
  | JNull => Return 0%float
  | JBool b => Return (if b then 1 else 0)%float
  | JNum x => Return x
  | JStr s => Return (StringToNumber s)
  | JArr _ | JObj _ => text ← ToString v; Return (StringToNumber text)
  end.

(** *** aws-event-stream.js, continued *)

(** The body of the loop of extractContentFromEvents. *)
Definition extractContentFromEvents_step (state : Extracted) (event : JValue)
    : Result Extracted :=
  if is_null event then Throw TypeError
  else
    fullContent' ←
      match get event "content" with
      | Some content => text ← ToString content; Return (fullContent state +:+ text)
      | None => Return (fullContent state)
      end;
    usage' ←
      (if is_credit (get event "unit") || defined (get event "usage") then
         n ← ToNumber (or_else (get event "usage") (JNum 0));
         Return (mkUsage (input_tokens (extractedUsage state))
                   (JNum (Math_round (n * 1000)%float)))
       else Return (extractedUsage state));
    let toolUse := or_opt (get event "toolUse") (get event "toolUseEvent") in
    Return (mkExtracted fullContent' usage'
              (if truthy_opt toolUse then
                 toolUses state
                 ++ [mkToolUse (get_opt toolUse "toolUseId") (get_opt toolUse "name")
                       (get_opt toolUse "input")]
               else toolUses state)).

Fixpoint extractContentFromEvents_loop (state : Extracted) (events : list JValue)
    : Result Extracted :=
  match events with
  | [] => Return state
  | event :: rest =>
      state' ← extractContentFromEvents_step state event;
      extractContentFromEvents_loop state' rest
  end.

Definition extractContentFromEvents (events : list JValue) : Result Extracted :=
  extractContentFromEvents_loop
    (mkExtracted "" (mkUsage (Some (JNum 0)) (JNum 0)) []) events.

(** *** message-handler.js *)

(** The loop [for (const tool of extracted.toolUses)] of sendKiroMessage. *)
Fixpoint tool_loop (tools : list ToolUse) (contentBlocks : list ResponseBlock)
    (stopReason : string) (draws : nat) : list ResponseBlock * string * nat :=
  match tools with
  | [] => (contentBlocks, stopReason, draws)
  | tool :: rest =>
      let id := or_else (tool_id tool) (JStr (synthetic_id "toolu_" draws)) in
      let draws' := if truthy_opt (tool_id tool) then draws else S draws in
      tool_loop rest
        (contentBlocks
         ++ [ToolUseContent id (tool_name tool) (or_else (tool_input tool) (JObj []))])
        "tool_use" draws'
  end.

(** sendKiroMessage from the receipt of the body of a response that is [ok]
    to its [return]: parse the event stream, extract, build the message.
    [draws] counts the calls of [randomUUID] made before.  An exception ends
    this attempt; the [catch] block decides what follows. *)
Definition sendKiroMessage_response (model : string) (buffer : list byte)
    (draws : nat) : Completion Message :=
  match parseEventStream buffer with
  | Finished events =>
      match extractContentFromEvents events with
      | Return extracted =>
          let contentBlocks :=
            if String.eqb (fullContent extracted) "" then []
            else [TextContent (fullContent extracted)] in
          let '(contentBlocks, stopReason, draws) :=
            tool_loop (toolUses extracted) contentBlocks "end_turn" draws in
          Finished
            (mkMessage (synthetic_id "msg_" draws) model
               (match contentBlocks with
                | [] => [TextContent ""]
                | _ :: _ => contentBlocks
                end)
               stopReason (extractedUsage extracted))
      | Throw e => Raised e
      end
  | Raised e => Raised e
  | Exhausted => Exhausted
  end.

(** *** request-builder.js *)

(** [anthropicModel] is [None] when the request names no model. *)
Definition mapModelToKiro (anthropicModel : option string) : KiroModel :=
  let lower := toLowerCase (default ""%string anthropicModel) in
  match own_property lower KIRO_MODEL_MAPPING with
  | Some id => ModelId id
  | None =>
      if bool_decide (lower ∈ Object_prototype_keys) then InheritedProperty lower
      else if includes lower "opus" then ModelId "claude-opus-4.5"
      else if includes lower "sonnet" && includes lower "4.5" then
        ModelId "claude-sonnet-4.5"
      else if includes lower "sonnet" && includes lower "4" then ModelId "claude-sonnet-4"
      else if includes lower "haiku" then ModelId "claude-haiku-4.5"
      else ModelId "claude-opus-4.5"
  end.

(** *** The frame that starts at an offset *)

Definition totalLength_at (buffer : list byte) (offset : Z) : Z := u32be buffer offset.

Definition headersLength_at (buffer : list byte) (offset : Z) : Z := u32be buffer (offset + 4).

Definition payloadOffset_at (buffer : list byte) (offset : Z) : Z :=
  offset + 12 + headersLength_at buffer offset.

Definition payloadLength_at (buffer : list byte) (offset : Z) : Z :=
  totalLength_at buffer offset - headersLength_at buffer offset - 16.

(** The prelude and the whole declared length are in the buffer. *)
Definition complete_at (buffer : list byte) (offset : Z) : bool :=
  (offset + 12 <=? byteLength buffer)
  && (offset + totalLength_at buffer offset <=? byteLength buffer).

(** The decoded payload of the frame at [offset], when it has one. *)
Definition payload_at (buffer : list byte) (offset : Z) : option JValue :=
  if payloadLength_at buffer offset >? 0 then
    Some (decodePayload
            (slice buffer (payloadOffset_at buffer offset)
               (payloadOffset_at buffer offset + payloadLength_at buffer offset)))
  else None.

(** [chain buffer offset payloads offset']: starting at [offset], the frames
    up to [offset'] are complete, [payloads] lists what each carries, and at
    [offset'] the buffer ends or holds an incomplete frame. *)
Inductive chain (buffer : list byte) : Z -> list (option JValue) -> Z -> Prop :=
| chain_end offset :
    (offset <? byteLength buffer) && complete_at buffer offset = false ->
    chain buffer offset [] offset
| chain_frame offset payloads offset' :
    (offset <? byteLength buffer) && complete_at buffer offset = true ->
    chain buffer (offset + totalLength_at buffer offset) payloads offset' ->
    chain buffer offset (payload_at buffer offset :: payloads) offset'.

(** The payloads a list of frames yields, in order. *)
Definition yielded (payloads : list (option JValue)) : list JValue :=
  omap id payloads.

(** The results that pass the test [result.data !== null] of parseEventStream. *)
Definition non_null (events : list JValue) : list JValue :=
  filter (fun v => is_null v = false) events.

(** A frame that is whole and declares its own length. *)
Definition well_delimited (frame : list byte) : Prop :=
  12 <= byteLength frame /\ totalLength_at frame 0 = byteLength frame.

(** The block the orchestrator holds open: [contentBlockIndex] while
    [hasOpenBlock] is set. *)
Definition open_index (st : StreamState) : option Z :=
  if hasOpenBlock st then Some (contentBlockIndex st) else None.

(** The payloads the translator cannot take: [null], and the usage records,
    met when there is neither a string [content] nor a truthy
    [assistantResponseEvent], whose [usage] and [unitPlural || unit] do not
    both convert to a string. *)
Definition translator_throws (eventData : JValue) : bool :=
  is_null eventData
  || match as_string (get eventData "content") with
     | Some _ => false
     | None =>
         negb (truthy_opt (get eventData "assistantResponseEvent"))
         && (defined (get eventData "usage") && defined (get eventData "unit"))
         && negb (ToString_returns_opt (get eventData "usage")
                  && ToString_returns_opt
                       (or_opt (get eventData "unitPlural") (get eventData "unit")))
     end.

(** The events extractContentFromEvents cannot take: [null], and those whose
    [content] or [usage] cannot be converted. *)
Definition extractor_throws (event : JValue) : bool :=
  is_null event
  || negb (ToString_returns_opt (get event "content"))
  || negb (ToString_returns_opt (get event "usage")).

(** The events that set the output-token count of extractContentFromEvents. *)
Definition usage_bearing (event : JValue) : bool :=
  is_credit (get event "unit") || defined (get event "usage").

(** ** Reading the buffer *)

Lemma byteAt_range buffer i : 0 <= byteAt buffer i < 256.
Proof.
  unfold byteAt. destruct (buffer !! Z.to_nat i) as [b|]; [|lia].
  pose proof (Byte.to_N_bounded b). lia.
Qed.

Lemma u32be_range buffer pos : 0 <= u32be buffer pos < 4294967296.
Proof.
  unfold u32be.
  pose proof (byteAt_range buffer pos).
  pose proof (byteAt_range buffer (pos + 1)).
  pose proof (byteAt_range buffer (pos + 2)).
  pose proof (byteAt_range buffer (pos + 3)).
  lia.
Qed.

Lemma byteLength_nonneg buffer : 0 <= byteLength buffer.
Proof. unfold byteLength. lia. Qed.

Lemma byteLength_app buffer extra :
  byteLength (buffer ++ extra) = byteLength buffer + byteLength extra.
Proof. unfold byteLength. rewrite length_app. lia. Qed.

Lemma byteLength_drop buffer k :
  (k <= length buffer)%nat -> byteLength (drop k buffer) = byteLength buffer - Z.of_nat k.
Proof. unfold byteLength. rewrite length_drop. lia. Qed.

Lemma byteAt_app_l buffer extra i :
  0 <= i < byteLength buffer -> byteAt (buffer ++ extra) i = byteAt buffer i.
Proof.
  unfold byteAt, byteLength. intros Hi.
  rewrite lookup_app_l by lia. reflexivity.
Qed.

Lemma u32be_app_l buffer extra pos :
  0 <= pos -> pos + 4 <= byteLength buffer ->
  u32be (buffer ++ extra) pos = u32be buffer pos.
Proof.
  intros Hpos Hlen. unfold u32be.
  rewrite !byteAt_app_l by lia. reflexivity.
Qed.

Lemma byteAt_drop buffer k i :
  0 <= i -> byteAt (drop k buffer) i = byteAt buffer (i + Z.of_nat k).
Proof.
  intros Hi. unfold byteAt. rewrite lookup_drop.
  replace (Z.to_nat (i + Z.of_nat k)) with (k + Z.to_nat i)%nat by lia.
  reflexivity.
Qed.

Lemma u32be_drop buffer k pos :
  0 <= pos -> u32be (drop k buffer) pos = u32be buffer (pos + Z.of_nat k).
Proof.
  intros Hpos. unfold u32be. rewrite !byteAt_drop by lia.
  replace (pos + 1 + Z.of_nat k) with (pos + Z.of_nat k + 1) by lia.
  replace (pos + 2 + Z.of_nat k) with (pos + Z.of_nat k + 2) by lia.
  replace (pos + 3 + Z.of_nat k) with (pos + Z.of_nat k + 3) by lia.
  reflexivity.
Qed.

(** ** The frame decoder *)

(** For a non-negative offset the decoder never throws, and its result is
    the frame at that offset when it is complete. *)
Lemma parseEventMessage_spec buffer offset :
  0 <= offset ->
  parseEventMessage buffer offset =
  Return (if complete_at buffer offset
          then Some (mkFrame (default JNull (payload_at buffer offset))
                       (offset + totalLength_at buffer offset))
          else None).
Proof.
  intros Hoff.
  unfold parseEventMessage, complete_at, payload_at, payloadOffset_at,
    payloadLength_at, totalLength_at, headersLength_at, newDataView, getUint32,
    newUint8Array, slice.
  pose proof (u32be_range buffer offset) as Ht.
  pose proof (u32be_range buffer (offset + 4)) as Hh.
  destruct (Z.gtb_spec (offset + 12) (byteLength buffer)) as [Hshort|Hprelude].
  { destruct (Z.leb_spec (offset + 12) (byteLength buffer)); [lia|reflexivity]. }
  destruct (Z.leb_spec (offset + 12) (byteLength buffer)); [|lia].
  destruct (Z.ltb_spec offset 0); [lia|].
  destruct (Z.gtb_spec offset (byteLength buffer)); [lia|].
  cbn [orb mbind Result_bind dv_buffer dv_byteOffset].
  destruct (Z.ltb_spec 0 0); [lia|].
  destruct (Z.gtb_spec (offset + 0 + 4) (byteLength buffer)); [lia|].
  cbn [orb mbind Result_bind].
  destruct (Z.ltb_spec 4 0); [lia|].
  destruct (Z.gtb_spec (offset + 4 + 4) (byteLength buffer)); [lia|].
  cbn [orb mbind Result_bind].
  rewrite Z.add_0_r.
  destruct (Z.gtb_spec (offset + u32be buffer offset) (byteLength buffer)).
  { destruct (Z.leb_spec (offset + u32be buffer offset) (byteLength buffer)); [lia|reflexivity]. }
  destruct (Z.leb_spec (offset + u32be buffer offset) (byteLength buffer)); [|lia].
  cbn [andb].
  destruct (Z.leb_spec (u32be buffer offset - u32be buffer (offset + 4) - 16) 0).
  { destruct (Z.gtb_spec (u32be buffer offset - u32be buffer (offset + 4) - 16) 0); [lia|reflexivity]. }
  destruct (Z.gtb_spec (u32be buffer offset - u32be buffer (offset + 4) - 16) 0); [|lia].
  destruct (Z.ltb_spec (offset + 12 + u32be buffer (offset + 4)) 0); [lia|].
  destruct (Z.ltb_spec (u32be buffer offset - u32be buffer (offset + 4) - 16) 0); [lia|].
  destruct (Z.gtb_spec (offset + 12 + u32be buffer (offset + 4)
                        + (u32be buffer offset - u32be buffer (offset + 4) - 16))
              (byteLength buffer)); [lia|].
  cbn [orb mbind Result_bind default].
  replace (offset + 12 + u32be buffer (offset + 4)
           + (u32be buffer offset - u32be buffer (offset + 4) - 16)
           - (offset + 12 + u32be buffer (offset + 4)))
    with (u32be buffer offset - u32be buffer (offset + 4) - 16) by lia.
  reflexivity.
Qed.

Lemma non_null_app xs ys : non_null (xs ++ ys) = non_null xs ++ non_null ys.
Proof. unfold non_null. apply filter_app. Qed.

Lemma yielded_app ps qs : yielded (ps ++ qs) = yielded ps ++ yielded qs.
Proof. unfold yielded. apply omap_app. Qed.

Lemma yielded_cons p ps : yielded (p :: ps) = yielded [p] ++ yielded ps.
Proof. apply (yielded_app [p] ps). Qed.

(** ** One iteration of each loop *)

Lemma parseEventStream_loop_step fuel buffer offset events :
  0 <= offset ->
  parseEventStream_loop (S fuel) buffer offset events =
  if (offset <? byteLength buffer) && complete_at buffer offset then
    parseEventStream_loop fuel buffer (offset + totalLength_at buffer offset)
      (events ++ non_null (yielded [payload_at buffer offset]))
  else Finished events.
Proof.
  intros Hoff. cbn [parseEventStream_loop].
  rewrite parseEventMessage_spec by assumption.
  destruct (offset <? byteLength buffer); [|reflexivity].
  destruct (complete_at buffer offset); [|reflexivity].
  cbn [andb data nextOffset].
  destruct (payload_at buffer offset) as [v|]; cbn.
  - destruct v; cbn; rewrite ?app_nil_r; reflexivity.
  - rewrite app_nil_r. reflexivity.
Qed.

Lemma scan_loop_step fuel buffer offset :
  0 <= offset ->
  scan_loop (S fuel) buffer offset =
  if (offset <? byteLength buffer) && complete_at buffer offset then
    let '(more, final) := scan_loop fuel buffer (offset + totalLength_at buffer offset) in
    (yielded [payload_at buffer offset] ++ more, final)
  else ([], Finished offset).
Proof.
  intros Hoff. cbn [scan_loop].
  unfold complete_at, payload_at, payloadOffset_at, payloadLength_at,
    totalLength_at, headersLength_at, newDataView, getUint32.
  destruct (Z.ltb_spec offset (byteLength buffer)); [|reflexivity].
  cbn [andb].
  destruct (Z.gtb_spec (offset + 12) (byteLength buffer)).
  { destruct (Z.leb_spec (offset + 12) (byteLength buffer)); [lia|reflexivity]. }
  destruct (Z.leb_spec (offset + 12) (byteLength buffer)); [|lia].
  destruct (Z.ltb_spec offset 0); [lia|].
  destruct (Z.gtb_spec offset (byteLength buffer)); [lia|].
  cbn [orb andb mbind Result_bind dv_buffer dv_byteOffset].
  destruct (Z.ltb_spec 0 0); [lia|].
  destruct (Z.gtb_spec (offset + 0 + 4) (byteLength buffer)); [lia|].
  cbn [orb mbind Result_bind dv_buffer dv_byteOffset].
  destruct (Z.ltb_spec 4 0); [lia|].
  destruct (Z.gtb_spec (offset + 4 + 4) (byteLength buffer)); [lia|].
  cbn [orb].
  rewrite Z.add_0_r.
  destruct (Z.gtb_spec (offset + u32be buffer offset) (byteLength buffer)).
  { destruct (Z.leb_spec (offset + u32be buffer offset) (byteLength buffer)); [lia|reflexivity]. }
  destruct (Z.leb_spec (offset + u32be buffer offset) (byteLength buffer)); [|lia].
  destruct (scan_loop fuel buffer (offset + u32be buffer offset)) as [more final].
  destruct (u32be buffer offset - u32be buffer (offset + 4) - 16 >? 0); reflexivity.
Qed.

(** ** The loops and the chain of frames *)

Lemma chain_no_zero buffer offset payloads offset' :
  chain buffer offset payloads offset' ->
  (offset <? byteLength buffer) && complete_at buffer offset = true ->
  totalLength_at buffer offset = 0 ->
  False.
Proof.
  induction 1 as [offset Hend|offset payloads offset' Hc Hrest IH]; intros Hc' Hzero.
  - congruence.
  - rewrite Hzero, Z.add_0_r in IH. auto.
Qed.

Lemma chain_bounds buffer offset payloads offset' :
  chain buffer offset payloads offset' ->
  0 <= offset <= byteLength buffer ->
  offset <= offset' <= byteLength buffer
  /\ Z.of_nat (length payloads) <= offset' - offset.
Proof.
  intros Hchain.
  induction Hchain as [offset Hend|offset payloads offset' Hc Hrest IH]; intros Hoff.
  - cbn. lia.
  - assert (totalLength_at buffer offset <> 0) as Hnz.
    { intros Hz. eapply chain_no_zero; [eapply chain_frame| |]; eassumption. }
    pose proof (u32be_range buffer offset) as Ht. fold (totalLength_at buffer offset) in Ht.
    apply andb_true_iff in Hc as [_ Hc]. unfold complete_at in Hc.
    apply andb_true_iff in Hc as [_ Hc]. apply Z.leb_le in Hc.
    destruct IH as [IH1 IH2]; [lia|].
    cbn [length]. lia.
Qed.

Lemma chain_deterministic buffer offset ps1 o1 :
  chain buffer offset ps1 o1 ->
  forall ps2 o2, chain buffer offset ps2 o2 -> ps1 = ps2 /\ o1 = o2.
Proof.
  induction 1 as [offset Hend|offset payloads offset' Hc Hrest IH];
    intros ps2 o2 H2; inversion H2; subst; try congruence.
  - auto.
  - destruct (IH _ _ ltac:(eassumption)) as [-> ->]. auto.
Qed.

(** The state every chain ends in. *)
Lemma chain_last buffer offset payloads offset' :
  chain buffer offset payloads offset' -> chain buffer offset' [] offset'.
Proof. induction 1; [constructor; assumption | assumption]. Qed.

Lemma chain_parseEventStream_loop buffer offset payloads offset' :
  chain buffer offset payloads offset' ->
  0 <= offset ->
  forall fuel events,
    (length payloads < fuel)%nat ->
    parseEventStream_loop fuel buffer offset events
    = Finished (events ++ non_null (yielded payloads)).
Proof.
  induction 1 as [offset Hend|offset payloads offset' Hc Hrest IH];
    intros Hoff fuel events Hfuel.
  - destruct fuel as [|fuel]; [cbn in Hfuel; lia|].
    rewrite parseEventStream_loop_step, Hend by assumption.
    cbn. rewrite app_nil_r. reflexivity.
  - destruct fuel as [|fuel]; [cbn in Hfuel; lia|].
    rewrite parseEventStream_loop_step, Hc by assumption.
    pose proof (u32be_range buffer offset) as Ht. fold (totalLength_at buffer offset) in Ht.
    rewrite IH by (cbn [length] in Hfuel; lia).
    rewrite (yielded_cons (payload_at buffer offset) payloads), non_null_app, app_assoc.
    reflexivity.
Qed.

Lemma parseEventStream_loop_chain fuel buffer :
  forall offset events result,
    0 <= offset ->
    parseEventStream_loop fuel buffer offset events = Finished result ->
    exists payloads offset',
      chain buffer offset payloads offset'
      /\ result = events ++ non_null (yielded payloads).
Proof.
  induction fuel as [|fuel IH]; intros offset events result Hoff Hrun.
  - discriminate.
  - rewrite parseEventStream_loop_step in Hrun by assumption.
    destruct ((offset <? byteLength buffer) && complete_at buffer offset) eqn:Hc.
    + pose proof (u32be_range buffer offset) as Ht. fold (totalLength_at buffer offset) in Ht.
      apply IH in Hrun as (payloads & offset' & Hchain & ->); [|lia].
      exists (payload_at buffer offset :: payloads), offset'. split.
      * constructor; assumption.
      * rewrite (yielded_cons (payload_at buffer offset) payloads), non_null_app, app_assoc.
        reflexivity.
    + injection Hrun as <-. exists [], offset. split.
      * constructor; assumption.
      * cbn. rewrite app_nil_r. reflexivity.
Qed.

Lemma parseEventStream_loop_not_raised fuel buffer :
  forall offset events e,
    0 <= offset ->
    parseEventStream_loop fuel buffer offset events <> Raised e.
Proof.
  induction fuel as [|fuel IH]; intros offset events e Hoff.
  - discriminate.
  - rewrite parseEventStream_loop_step by assumption.
    pose proof (u32be_range buffer offset) as Ht. fold (totalLength_at buffer offset) in Ht.
    destruct ((offset <? byteLength buffer) && complete_at buffer offset).
    + apply IH. lia.
    + discriminate.
Qed.

Lemma chain_scan_loop buffer offset payloads offset' :
  chain buffer offset payloads offset' ->
  0 <= offset ->
  forall fuel,
    (length payloads < fuel)%nat ->
    scan_loop fuel buffer offset = (yielded payloads, Finished offset').
Proof.
  induction 1 as [offset Hend|offset payloads offset' Hc Hrest IH];
    intros Hoff fuel Hfuel.
  - destruct fuel as [|fuel]; [cbn in Hfuel; lia|].
    rewrite scan_loop_step, Hend by assumption. reflexivity.
  - destruct fuel as [|fuel]; [cbn in Hfuel; lia|].
    rewrite scan_loop_step, Hc by assumption.
    pose proof (u32be_range buffer offset) as Ht. fold (totalLength_at buffer offset) in Ht.
    rewrite IH by (cbn [length] in Hfuel; lia).
    rewrite (yielded_cons (payload_at buffer offset) payloads). reflexivity.
Qed.

Lemma scan_loop_chain fuel buffer :
  forall offset ys offset',
    0 <= offset ->
    scan_loop fuel buffer offset = (ys, Finished offset') ->
    exists payloads, chain buffer offset payloads offset' /\ ys = yielded payloads.
Proof.
  induction fuel as [|fuel IH]; intros offset ys offset' Hoff Hrun.
  - discriminate.
  - rewrite scan_loop_step in Hrun by assumption.
    destruct ((offset <? byteLength buffer) && complete_at buffer offset) eqn:Hc.
    + pose proof (u32be_range buffer offset) as Ht. fold (totalLength_at buffer offset) in Ht.
      destruct (scan_loop fuel buffer (offset + totalLength_at buffer offset))
        as [more final] eqn:Hmore.
      injection Hrun as <- ->.
      apply IH in Hmore as (payloads & Hchain & ->); [|lia].
      exists (payload_at buffer offset :: payloads). split.
      * constructor; assumption.
      * rewrite (yielded_cons (payload_at buffer offset) payloads). reflexivity.
    + injection Hrun as <- <-. exists []. split; [constructor; assumption|reflexivity].
Qed.

Lemma scan_loop_not_raised fuel buffer :
  forall offset e, 0 <= offset -> snd (scan_loop fuel buffer offset) <> Raised e.
Proof.
  induction fuel as [|fuel IH]; intros offset e Hoff.
  - discriminate.
  - rewrite scan_loop_step by assumption.
    pose proof (u32be_range buffer offset) as Ht. fold (totalLength_at buffer offset) in Ht.
    destruct ((offset <? byteLength buffer) && complete_at buffer offset).
    + specialize (IH (offset + totalLength_at buffer offset) e ltac:(lia)).
      destruct (scan_loop fuel buffer (offset + totalLength_at buffer offset)).
      exact IH.
    + discriminate.
Qed.

(** ** Longer buffers and dropped prefixes *)

Lemma slice_app_l buffer extra start stop :
  0 <= start -> stop <= byteLength buffer ->
  slice (buffer ++ extra) start stop = slice buffer start stop.
Proof.
  unfold slice, byteLength. intros Hstart Hstop.
  destruct (Z.le_gt_cases stop start) as [Hle|Hlt].
  - replace (Z.to_nat (stop - start)) with 0%nat by lia. reflexivity.
  - rewrite drop_app_le by lia.
    rewrite take_app_le by (rewrite length_drop; lia).
    reflexivity.
Qed.

Lemma slice_drop buffer k start stop :
  0 <= start ->
  slice (drop k buffer) start stop = slice buffer (start + Z.of_nat k) (stop + Z.of_nat k).
Proof.
  unfold slice. intros Hstart. rewrite drop_drop.
  replace (Z.to_nat (start + Z.of_nat k)) with (k + Z.to_nat start)%nat by lia.
  replace (stop + Z.of_nat k - (start + Z.of_nat k)) with (stop - start) by lia.
  reflexivity.
Qed.

(** A frame that is complete stays the same frame when bytes are appended. *)
Lemma complete_at_app buffer extra offset :
  0 <= offset ->
  (offset <? byteLength buffer) && complete_at buffer offset = true ->
  (offset <? byteLength (buffer ++ extra)) && complete_at (buffer ++ extra) offset = true
  /\ totalLength_at (buffer ++ extra) offset = totalLength_at buffer offset
  /\ payload_at (buffer ++ extra) offset = payload_at buffer offset.
Proof.
  intros Hoff Hc.
  apply andb_true_iff in Hc as [Hlt Hc]. apply Z.ltb_lt in Hlt.
  unfold complete_at in Hc. apply andb_true_iff in Hc as [Hprelude Htotal].
  apply Z.leb_le in Hprelude. apply Z.leb_le in Htotal.
  pose proof (byteLength_nonneg extra) as Hextra.
  assert (totalLength_at (buffer ++ extra) offset = totalLength_at buffer offset) as Ht.
  { unfold totalLength_at. apply u32be_app_l; lia. }
  assert (headersLength_at (buffer ++ extra) offset = headersLength_at buffer offset) as Hh.
  { unfold headersLength_at. apply u32be_app_l; lia. }
  split; [|split].
  - unfold complete_at. rewrite Ht, byteLength_app.
    apply andb_true_iff. split; [apply Z.ltb_lt; lia|].
    apply andb_true_iff. split; apply Z.leb_le; lia.
  - exact Ht.
  - unfold payload_at, payloadOffset_at, payloadLength_at. rewrite Ht, Hh.
    destruct (Z.gtb_spec (totalLength_at buffer offset - headersLength_at buffer offset - 16) 0);
      [|reflexivity].
    pose proof (u32be_range buffer (offset + 4)) as Hhr.
    fold (headersLength_at buffer offset) in Hhr.
    rewrite slice_app_l by lia. reflexivity.
Qed.

Lemma chain_app buffer extra offset payloads offset' :
  chain buffer offset payloads offset' ->
  0 <= offset ->
  forall more offset'',
    chain (buffer ++ extra) offset' more offset'' ->
    chain (buffer ++ extra) offset (payloads ++ more) offset''.
Proof.
  induction 1 as [offset Hend|offset payloads offset' Hc Hrest IH];
    intros Hoff more offset'' Hmore.
  - exact Hmore.
  - destruct (complete_at_app buffer extra offset Hoff Hc) as (Hc' & Ht & Hp).
    pose proof (u32be_range buffer offset) as Hr. fold (totalLength_at buffer offset) in Hr.
    cbn [app]. rewrite <- Hp. constructor; [exact Hc'|].
    rewrite Ht. apply IH; [lia|exact Hmore].
Qed.

(** A chain of the longer buffer starts with the chain of the shorter one. *)
Lemma chain_split buffer extra offset payloads offset' :
  chain (buffer ++ extra) offset payloads offset' ->
  0 <= offset ->
  exists ps1 o1 ps2,
    chain buffer offset ps1 o1
    /\ chain (buffer ++ extra) o1 ps2 offset'
    /\ payloads = ps1 ++ ps2.
Proof.
  intros Hchain.
  remember (buffer ++ extra) as whole eqn:Hwhole.
  induction Hchain as [offset Hend|offset payloads offset' Hc Hrest IH]; intros Hoff.
  - exists [], offset, []. split; [|split; [constructor; assumption|reflexivity]].
    constructor.
    destruct ((offset <? byteLength buffer) && complete_at buffer offset) eqn:Hb;
      [|reflexivity].
    destruct (complete_at_app buffer extra offset Hoff Hb) as (Hc' & _ & _).
    subst whole. congruence.
  - destruct ((offset <? byteLength buffer) && complete_at buffer offset) eqn:Hb.
    + destruct (complete_at_app buffer extra offset Hoff Hb) as (_ & Ht & Hp).
      pose proof (u32be_range whole offset) as Hr. fold (totalLength_at whole offset) in Hr.
      destruct (IH ltac:(lia)) as (ps1 & o1 & ps2 & H1 & H2 & ->).
      exists (payload_at buffer offset :: ps1), o1, ps2.
      subst whole. rewrite Ht in H1. rewrite Hp.
      split; [constructor; assumption|]. split; [assumption|reflexivity].
    + exists [], offset, (payload_at whole offset :: payloads).
      split; [constructor; assumption|].
      split; [constructor; assumption|reflexivity].
Qed.

(** Dropping [k] consumed bytes shifts every offset by [k]. *)
Lemma complete_at_drop buffer k offset :
  0 <= offset -> (k <= length buffer)%nat ->
  (offset <? byteLength (drop k buffer)) && complete_at (drop k buffer) offset
  = (offset + Z.of_nat k <? byteLength buffer) && complete_at buffer (offset + Z.of_nat k)
  /\ totalLength_at (drop k buffer) offset = totalLength_at buffer (offset + Z.of_nat k)
  /\ payload_at (drop k buffer) offset = payload_at buffer (offset + Z.of_nat k).
Proof.
  intros Hoff Hk.
  assert (totalLength_at (drop k buffer) offset = totalLength_at buffer (offset + Z.of_nat k))
    as Ht.
  { unfold totalLength_at. apply u32be_drop; lia. }
  assert (headersLength_at (drop k buffer) offset
          = headersLength_at buffer (offset + Z.of_nat k)) as Hh.
  { unfold headersLength_at. rewrite u32be_drop by lia. f_equal. lia. }
  split; [|split].
  - unfold complete_at. rewrite Ht, byteLength_drop by assumption.
    repeat match goal with
    | |- context [?a <? ?b] => destruct (Z.ltb_spec a b)
    | |- context [?a <=? ?b] => destruct (Z.leb_spec a b)
    end; try reflexivity; lia.
  - exact Ht.
  - unfold payload_at, payloadOffset_at, payloadLength_at. rewrite Ht, Hh.
    destruct (totalLength_at buffer (offset + Z.of_nat k)
              - headersLength_at buffer (offset + Z.of_nat k) - 16 >? 0); [|reflexivity].
    pose proof (u32be_range buffer (offset + Z.of_nat k + 4)) as Hhr.
    fold (headersLength_at buffer (offset + Z.of_nat k)) in Hhr.
    rewrite slice_drop by lia.
    do 3 f_equal; lia.
Qed.

Lemma chain_drop buffer k from payloads offset' :
  chain buffer from payloads offset' ->
  forall offset,
    from = offset + Z.of_nat k -> 0 <= offset -> (k <= length buffer)%nat ->
    chain (drop k buffer) offset payloads (offset' - Z.of_nat k).
Proof.
  induction 1 as [from Hend|from payloads offset' Hc Hrest IH];
    intros offset -> Hoff Hk;
    destruct (complete_at_drop buffer k offset Hoff Hk) as (Hc' & Ht & Hp).
  - replace (offset + Z.of_nat k - Z.of_nat k) with offset by lia.
    constructor. congruence.
  - rewrite <- Hp. constructor; [congruence|].
    pose proof (u32be_range (drop k buffer) offset) as Hr.
    fold (totalLength_at (drop k buffer) offset) in Hr.
    apply IH; [rewrite Ht; lia|lia|assumption].
Qed.

Lemma chain_undrop buffer k offset payloads offset' :
  chain (drop k buffer) offset payloads offset' ->
  0 <= offset -> (k <= length buffer)%nat ->
  chain buffer (offset + Z.of_nat k) payloads (offset' + Z.of_nat k).
Proof.
  intros Hchain.
  remember (drop k buffer) as tail eqn:Htail.
  induction Hchain as [offset Hend|offset payloads offset' Hc Hrest IH];
    intros Hoff Hk;
    destruct (complete_at_drop buffer k offset Hoff Hk) as (Hc' & Ht & Hp);
    subst tail.
  - constructor. congruence.
  - rewrite Hp. constructor; [congruence|].
    pose proof (u32be_range (drop k buffer) offset) as Hr.
    fold (totalLength_at (drop k buffer) offset) in Hr.
    rewrite <- Ht.
    replace (offset + Z.of_nat k + totalLength_at (drop k buffer) offset)
      with (offset + totalLength_at (drop k buffer) offset + Z.of_nat k) by lia.
    apply IH; [lia|assumption].
Qed.

(** ** The incremental reader *)

Lemma read_chunk_chain buffer value payloads offset' :
  chain (buffer ++ value) 0 payloads offset' ->
  read_chunk buffer value
  = (yielded payloads, Finished (drop (Z.to_nat offset') (buffer ++ value))).
Proof.
  intros Hchain. unfold read_chunk.
  pose proof (byteLength_nonneg (buffer ++ value)) as Hlen.
  destruct (chain_bounds _ _ _ _ Hchain ltac:(lia)) as [Ho Hn].
  rewrite (chain_scan_loop _ _ _ _ Hchain) by (unfold byteLength in *; lia).
  unfold slice_from.
  destruct (Z.gtb_spec offset' 0); [reflexivity|].
  replace offset' with 0 by lia. reflexivity.
Qed.

Lemma read_chunk_finished buffer value ys buffer' :
  read_chunk buffer value = (ys, Finished buffer') ->
  exists payloads offset',
    chain (buffer ++ value) 0 payloads offset'
    /\ ys = yielded payloads
    /\ buffer' = drop (Z.to_nat offset') (buffer ++ value).
Proof.
  unfold read_chunk. intros Hrun.
  destruct (scan_loop (S (length (buffer ++ value))) (buffer ++ value) 0)
    as [yielded' [offset'| |]] eqn:Hscan; try discriminate.
  apply scan_loop_chain in Hscan as (payloads & Hchain & ->); [|lia].
  injection Hrun as <- <-.
  exists payloads, offset'. split; [assumption|]. split; [reflexivity|].
  unfold slice_from.
  destruct (Z.gtb_spec offset' 0); [reflexivity|].
  pose proof (byteLength_nonneg (buffer ++ value)) as Hlen.
  destruct (chain_bounds _ _ _ _ Hchain ltac:(lia)) as [Ho _].
  replace offset' with 0 by lia. reflexivity.
Qed.

Lemma read_chunk_not_raised buffer value e :
  snd (read_chunk buffer value) <> Raised e.
Proof.
  unfold read_chunk.
  pose proof (scan_loop_not_raised (S (length (buffer ++ value))) (buffer ++ value) 0 e
                ltac:(lia)) as Hscan.
  destruct (scan_loop (S (length (buffer ++ value))) (buffer ++ value) 0)
    as [yielded' [offset'| |]]; cbn in *; congruence.
Qed.

(** What [read_chunk] keeps holds no complete frame at its start. *)
Lemma chain_retained buffer payloads offset' :
  chain buffer 0 payloads offset' ->
  chain (drop (Z.to_nat offset') buffer) 0 [] 0.
Proof.
  intros Hchain.
  pose proof (byteLength_nonneg buffer) as Hlen.
  destruct (chain_bounds _ _ _ _ Hchain ltac:(lia)) as [Ho _].
  apply chain_last in Hchain.
  replace 0 with (offset' - Z.of_nat (Z.to_nat offset')) at 2 by lia.
  eapply chain_drop; [exact Hchain|lia|lia|unfold byteLength in *; lia].
Qed.

Lemma parseEventStreamAsync_from_chain chunks :
  forall buffer payloads offset',
    chain buffer 0 [] 0 ->
    chain (buffer ++ concat chunks) 0 payloads offset' ->
    parseEventStreamAsync_from buffer chunks = (yielded payloads, Finished tt).
Proof.
  induction chunks as [|value rest IH]; intros buffer payloads offset' Hstuck Hchain.
  - cbn in Hchain. rewrite app_nil_r in Hchain.
    destruct (chain_deterministic _ _ _ _ Hstuck _ _ Hchain) as [<- _].
    reflexivity.
  - cbn [concat] in Hchain. rewrite app_assoc in Hchain.
    apply chain_split in Hchain as (ps1 & o1 & ps2 & H1 & H2 & ->); [|lia].
    cbn [parseEventStreamAsync_from].
    rewrite (read_chunk_chain _ _ _ _ H1).
    pose proof (byteLength_nonneg (buffer ++ value)) as Hlen.
    destruct (chain_bounds _ _ _ _ H1 ltac:(lia)) as [Ho _].
    rewrite (IH _ ps2 (offset' - Z.of_nat (Z.to_nat o1))).
    + rewrite yielded_app. reflexivity.
    + eapply chain_retained. exact H1.
    + rewrite <- drop_app_le by (unfold byteLength in *; lia).
      eapply chain_drop; [exact H2|lia|lia|].
      rewrite length_app. unfold byteLength in *. lia.
Qed.

Lemma parseEventStreamAsync_from_finished chunks :
  forall buffer ys,
    chain buffer 0 [] 0 ->
    parseEventStreamAsync_from buffer chunks = (ys, Finished tt) ->
    exists payloads offset',
      chain (buffer ++ concat chunks) 0 payloads offset' /\ ys = yielded payloads.
Proof.
  induction chunks as [|value rest IH]; intros buffer ys Hstuck Hrun.
  - cbn in Hrun. injection Hrun as <-.
    exists [], 0. cbn. rewrite app_nil_r. split; [assumption|reflexivity].
  - cbn [parseEventStreamAsync_from] in Hrun.
    destruct (read_chunk buffer value) as [ys1 [buffer'| |]] eqn:Hread; try discriminate.
    destruct (parseEventStreamAsync_from buffer' rest) as [ys2 final] eqn:Hrest.
    injection Hrun as <- ->.
    apply read_chunk_finished in Hread as (ps1 & o1 & H1 & -> & ->).
    pose proof (byteLength_nonneg (buffer ++ value)) as Hlen.
    destruct (chain_bounds _ _ _ _ H1 ltac:(lia)) as [Ho _].
    apply IH in Hrest as (ps2 & o2 & H2 & ->); [|eapply chain_retained; exact H1].
    exists (ps1 ++ ps2), (o2 + Z.of_nat (Z.to_nat o1)).
    split; [|rewrite yielded_app; reflexivity].
    cbn [concat]. rewrite app_assoc.
    eapply chain_app; [exact H1|lia|].
    rewrite <- drop_app_le in H2 by (unfold byteLength in *; lia).
    apply chain_undrop in H2; [|lia|rewrite length_app; unfold byteLength in *; lia].
    replace (0 + Z.of_nat (Z.to_nat o1)) with o1 in H2 by lia.
    exact H2.
Qed.

Lemma parseEventStreamAsync_from_not_raised chunks :
  forall buffer e, snd (parseEventStreamAsync_from buffer chunks) <> Raised e.
Proof.
  induction chunks as [|value rest IH]; intros buffer e.
  - discriminate.
  - cbn [parseEventStreamAsync_from].
    pose proof (read_chunk_not_raised buffer value e) as Hread.
    destruct (read_chunk buffer value) as [ys1 [buffer'| |]]; cbn in *; try congruence.
    specialize (IH buffer' e).
    destruct (parseEventStreamAsync_from buffer' rest). exact IH.
Qed.

Lemma chain_nil : chain [] 0 [] 0.
Proof. constructor. reflexivity. Qed.

(** The one-shot parser returns exactly when the frames from offset 0 form a
    chain, and then it returns their payloads without the [null] ones. *)
Lemma parseEventStream_finished_iff buffer events :
  parseEventStream buffer = Finished events
  <-> exists payloads offset',
        chain buffer 0 payloads offset' /\ events = non_null (yielded payloads).
Proof.
  unfold parseEventStream. split.
  - intros Hrun. apply parseEventStream_loop_chain in Hrun; [|lia]. exact Hrun.
  - intros (payloads & offset' & Hchain & ->).
    pose proof (byteLength_nonneg buffer) as Hlen.
    destruct (chain_bounds _ _ _ _ Hchain ltac:(lia)) as [Ho Hn].
    rewrite (chain_parseEventStream_loop _ _ _ _ Hchain) by (unfold byteLength in *; lia).
    reflexivity.
Qed.

(** The incremental parser completes exactly when the frames of all the
    bytes form a chain, and then it has yielded their payloads. *)
Lemma parseEventStreamAsync_finished_iff chunks ys :
  parseEventStreamAsync chunks = (ys, Finished tt)
  <-> exists payloads offset',
        chain (concat chunks) 0 payloads offset' /\ ys = yielded payloads.
Proof.
  unfold parseEventStreamAsync. split.
  - intros Hrun.
    apply parseEventStreamAsync_from_finished in Hrun; [exact Hrun|apply chain_nil].
  - intros (payloads & offset' & Hchain & ->).
    eapply parseEventStreamAsync_from_chain; [apply chain_nil|exact Hchain].
Qed.

(** ** Properties of the frame decoder and of the two parsers *)

(** A complete frame of declared length 0 is met again and again. *)
Lemma parseEventStream_loop_zero_length buffer offset :
  0 <= offset ->
  (offset <? byteLength buffer) && complete_at buffer offset = true ->
  totalLength_at buffer offset = 0 ->
  forall fuel events, parseEventStream_loop fuel buffer offset events = Exhausted.
Proof.
  intros Hoff Hc Hzero fuel. induction fuel as [|fuel IH]; intros events.
  - reflexivity.
  - rewrite parseEventStream_loop_step, Hc, Hzero, Z.add_0_r by assumption.
    apply IH.
Qed.

Lemma scan_loop_zero_length buffer offset :
  0 <= offset ->
  (offset <? byteLength buffer) && complete_at buffer offset = true ->
  totalLength_at buffer offset = 0 ->
  forall fuel, scan_loop fuel buffer offset = ([], Exhausted).
Proof.
  intros Hoff Hc Hzero fuel. induction fuel as [|fuel IH].
  - reflexivity.
  - rewrite scan_loop_step, Hc, Hzero, Z.add_0_r, IH by assumption.
    unfold payload_at, payloadLength_at. rewrite Hzero.
    pose proof (u32be_range buffer (offset + 4)) as Hh.
    fold (headersLength_at buffer offset) in Hh.
    destruct (Z.gtb_spec (0 - headersLength_at buffer offset - 16) 0); [lia|].
    reflexivity.
Qed.

(** When the one-shot parser runs out of its [S (length buffer)] iterations
    it runs out of any number of them. *)
Lemma parseEventStream_loop_exhausted buffer :
  parseEventStream buffer = Exhausted ->
  forall fuel, parseEventStream_loop fuel buffer 0 [] = Exhausted.
Proof.
  intros Hex fuel.
  destruct (parseEventStream_loop fuel buffer 0 []) as [events|e|] eqn:Hrun.
  - apply parseEventStream_loop_chain in Hrun; [|lia].
    apply parseEventStream_finished_iff in Hrun. congruence.
  - exfalso. eapply parseEventStream_loop_not_raised; [|exact Hrun]. lia.
  - reflexivity.
Qed.

(** The same for the scan of a chunk. *)
Lemma scan_loop_exhausted buffer ys :
  scan_loop (S (length buffer)) buffer 0 = (ys, Exhausted) ->
  forall fuel, snd (scan_loop fuel buffer 0) = Exhausted.
Proof.
  intros Hex fuel.
  destruct (scan_loop fuel buffer 0) as [ys' [offset'|e|]] eqn:Hrun; [| |reflexivity].
  - apply scan_loop_chain in Hrun as (payloads & Hchain & ->); [|lia].
    pose proof (byteLength_nonneg buffer) as Hlen.
    destruct (chain_bounds _ _ _ _ Hchain ltac:(lia)) as [Ho Hn].
    rewrite (chain_scan_loop _ _ _ _ Hchain) in Hex by (unfold byteLength in *; lia).
    discriminate.
  - exfalso. apply (scan_loop_not_raised fuel buffer 0 e ltac:(lia)).
    rewrite Hrun. reflexivity.
Qed.

(** An incomplete frame stays in the buffer of the incremental parser,
    whatever the chunks it arrived in. *)
Lemma parseEventStreamAsync_from_incomplete chunks :
  forall buffer rest,
    complete_at (buffer ++ concat chunks) 0 = false ->
    parseEventStreamAsync_from buffer (chunks ++ rest)
    = parseEventStreamAsync_from (buffer ++ concat chunks) rest.
Proof.
  induction chunks as [|value chunks IH]; intros buffer rest Hinc.
  - cbn. rewrite app_nil_r. reflexivity.
  - cbn [concat] in *. rewrite app_assoc in *.
    cbn [app parseEventStreamAsync_from].
    assert (chain (buffer ++ value) 0 [] 0) as Hstuck.
    { constructor.
      destruct ((0 <? byteLength (buffer ++ value)) && complete_at (buffer ++ value) 0)
        eqn:Hc; [|reflexivity].
      destruct (complete_at_app _ (concat chunks) 0 ltac:(lia) Hc) as (Hc' & _ & _).
      apply andb_true_iff in Hc' as [_ Hc']. congruence. }
    rewrite (read_chunk_chain _ _ _ _ Hstuck).
    change (drop (Z.to_nat 0) (buffer ++ value)) with (buffer ++ value).
    rewrite IH by assumption.
    destruct (parseEventStreamAsync_from ((buffer ++ value) ++ concat chunks) rest).
    reflexivity.
Qed.

Lemma complete_at_lt buffer offset :
  0 <= offset -> complete_at buffer offset = true ->
  (offset <? byteLength buffer) && complete_at buffer offset = true.
Proof.
  intros Hoff Hc. rewrite Hc, andb_true_r.
  unfold complete_at in Hc. apply andb_true_iff in Hc as [Hc _].
  apply Z.leb_le in Hc. apply Z.ltb_lt. lia.
Qed.

(** C7. A complete frame whose payload length is zero or negative is decoded
    to the empty payload [null] with next offset [offset + totalLength], no
    error; the loop of parseEventStream goes on from there with the same
    events, and the loop of parseEventStreamAsync goes on from there having
    yielded nothing. *)
Theorem empty_frame_not_emitted buffer offset :
  0 <= offset ->
  complete_at buffer offset = true ->
  payloadLength_at buffer offset <= 0 ->
  parseEventMessage buffer offset
  = Return (Some (mkFrame JNull (offset + totalLength_at buffer offset)))
  /\ (forall fuel events,
        parseEventStream_loop (S fuel) buffer offset events
        = parseEventStream_loop fuel buffer (offset + totalLength_at buffer offset) events)
  /\ (forall fuel,
        scan_loop (S fuel) buffer offset
        = scan_loop fuel buffer (offset + totalLength_at buffer offset)).
Proof.
  intros Hoff Hc Hlen.
  assert (payload_at buffer offset = None) as Hp.
  { unfold payload_at.
    destruct (Z.gtb_spec (payloadLength_at buffer offset) 0); [lia|reflexivity]. }
  split; [|split].
  - rewrite parseEventMessage_spec, Hc, Hp by assumption. reflexivity.
  - intros fuel events.
    rewrite parseEventStream_loop_step, (complete_at_lt _ _ Hoff Hc), Hp by assumption.
    cbn. rewrite app_nil_r. reflexivity.
  - intros fuel.
    rewrite scan_loop_step, (complete_at_lt _ _ Hoff Hc), Hp by assumption.
    destruct (scan_loop fuel buffer (offset + totalLength_at buffer offset)).
    reflexivity.
Qed.

(** C8. When the payload of a complete frame, decoded as text, does not parse
    as JSON, the frame decoder returns the wrapper [{ raw: text }] instead of
    throwing, and both loops go on with the frame that follows: the one-shot
    loop with the wrapper added to its events, the incremental loop having
    yielded the wrapper. *)
Theorem non_json_payload_wrapped buffer offset e :
  0 <= offset ->
  complete_at buffer offset = true ->
  0 < payloadLength_at buffer offset ->
  let text :=
    TextDecoder_decode
      (slice buffer (payloadOffset_at buffer offset)
         (payloadOffset_at buffer offset + payloadLength_at buffer offset)) in
  let raw := JObj [("raw"%string, JStr text)] in
  JSON_parse text = Throw e ->
  parseEventMessage buffer offset
  = Return (Some (mkFrame raw (offset + totalLength_at buffer offset)))
  /\ (forall fuel events,
        parseEventStream_loop (S fuel) buffer offset events
        = parseEventStream_loop fuel buffer (offset + totalLength_at buffer offset)
            (events ++ [raw]))
  /\ (forall fuel,
        scan_loop (S fuel) buffer offset
        = (raw :: fst (scan_loop fuel buffer (offset + totalLength_at buffer offset)),
           snd (scan_loop fuel buffer (offset + totalLength_at buffer offset)))).
Proof.
  intros Hoff Hc Hlen text raw Hparse.
  assert (payload_at buffer offset = Some raw) as Hp.
  { unfold payload_at, decodePayload.
    destruct (Z.gtb_spec (payloadLength_at buffer offset) 0); [|lia].
    fold text. rewrite Hparse. reflexivity. }
  split; [|split].
  - rewrite parseEventMessage_spec, Hc, Hp by assumption. reflexivity.
  - intros fuel events.
    rewrite parseEventStream_loop_step, (complete_at_lt _ _ Hoff Hc), Hp by assumption.
    reflexivity.
  - intros fuel.
    rewrite scan_loop_step, (complete_at_lt _ _ Hoff Hc), Hp by assumption.
    destruct (scan_loop fuel buffer (offset + totalLength_at buffer offset)).
    reflexivity.
Qed.

(** C9, at the input where it fails.  On a buffer of twelve zero bytes the
    prelude declares a total length of 0, the next offset is the offset
    again, and the loop of parseEventStream has not ended after any number of
    iterations. *)
Theorem parseEventStream_zero_prelude_loops fuel :
  parseEventMessage zero_prelude 0 = Return (Some (mkFrame JNull 0))
  /\ parseEventStream_loop fuel zero_prelude 0 [] = Exhausted
  /\ parseEventStream zero_prelude = Exhausted.
Proof.
  split; [reflexivity|].
  split; apply parseEventStream_loop_zero_length; (lia || reflexivity).
Qed.

(** C10. The payload bytes of a complete frame with a positive payload
    length lie within the buffer, whatever the two declared lengths are: the
    [Uint8Array] over them is built without a [RangeError] and has exactly
    [payloadLength] bytes. *)
Theorem payload_within_buffer buffer offset :
  0 <= offset ->
  complete_at buffer offset = true ->
  0 < payloadLength_at buffer offset ->
  0 <= payloadOffset_at buffer offset
  /\ payloadOffset_at buffer offset + payloadLength_at buffer offset <= byteLength buffer
  /\ exists bytes,
       newUint8Array buffer (payloadOffset_at buffer offset) (payloadLength_at buffer offset)
       = Return bytes
       /\ byteLength bytes = payloadLength_at buffer offset
       /\ parseEventMessage buffer offset
          = Return (Some (mkFrame (decodePayload bytes)
                            (offset + totalLength_at buffer offset))).
Proof.
  intros Hoff Hc Hlen.
  pose proof (u32be_range buffer (offset + 4)) as Hh.
  fold (headersLength_at buffer offset) in Hh.
  pose proof Hc as Hc'. unfold complete_at in Hc'.
  apply andb_true_iff in Hc' as [_ Ht]. apply Z.leb_le in Ht.
  assert (0 <= payloadOffset_at buffer offset) as Hlo
    by (unfold payloadOffset_at; lia).
  assert (payloadOffset_at buffer offset + payloadLength_at buffer offset
          <= byteLength buffer) as Hhi
    by (unfold payloadOffset_at, payloadLength_at in *; lia).
  split; [exact Hlo|]. split; [exact Hhi|].
  unfold newUint8Array.
  destruct (Z.ltb_spec (payloadOffset_at buffer offset) 0); [lia|].
  destruct (Z.ltb_spec (payloadLength_at buffer offset) 0); [lia|].
  destruct (Z.gtb_spec (payloadOffset_at buffer offset + payloadLength_at buffer offset)
              (byteLength buffer)); [lia|].
  cbn [orb]. eexists. split; [reflexivity|]. split.
  - unfold byteLength in *. rewrite length_take, length_drop. lia.
  - rewrite parseEventMessage_spec, Hc by assumption.
    unfold payload_at, slice.
    destruct (Z.gtb_spec (payloadLength_at buffer offset) 0); [|lia].
    replace (payloadOffset_at buffer offset + payloadLength_at buffer offset
             - payloadOffset_at buffer offset)
      with (payloadLength_at buffer offset) by lia.
    reflexivity.
Qed.

(** X1. Incremental equivalence, as far as it holds: the one-shot parser returns
    on the concatenated chunks exactly when the incremental parser completes
    on the chunks, and it returns what the incremental parser yielded without
    the payloads that are [null]. *)
Theorem parseEventStream_incremental chunks events :
  parseEventStream (concat chunks) = Finished events
  <-> exists ys,
        parseEventStreamAsync chunks = (ys, Finished tt) /\ events = non_null ys.
Proof.
  rewrite parseEventStream_finished_iff. split.
  - intros (payloads & offset' & Hchain & ->).
    exists (yielded payloads). split; [|reflexivity].
    apply parseEventStreamAsync_finished_iff. eauto.
  - intros (ys & Hrun & ->).
    apply parseEventStreamAsync_finished_iff in Hrun as (payloads & offset' & Hchain & ->).
    eauto.
Qed.

(** X2. Neither parser throws, on any bytes and any chunks. *)
Theorem parsers_never_throw chunks e :
  parseEventStream (concat chunks) <> Raised e
  /\ snd (parseEventStreamAsync chunks) <> Raised e.
Proof.
  split.
  - apply parseEventStream_loop_not_raised. lia.
  - apply parseEventStreamAsync_from_not_raised.
Qed.

(** A frame with the JSON text [null] as payload is a payload for the
    incremental parser and nothing for the one-shot parser. *)
Lemma null_payload_differs :
  JSON_parse (TextDecoder_decode (list_byte_of_string "null")) = Return JNull ->
  parseEventStream null_frame = Finished []
  /\ parseEventStreamAsync [null_frame] = ([JNull], Finished tt)
  /\ parseEventStreamAsync [take 13 null_frame; drop 13 null_frame]
     = ([JNull], Finished tt).
Proof.
  intros Hnull.
  assert (chain null_frame 0 [Some JNull] 20) as Hchain.
  { assert (payload_at null_frame 0 = Some JNull) as <-.
    { unfold payload_at, decodePayload.
      change (payloadLength_at null_frame 0 >? 0) with true. cbv iota.
      change (slice _ _ _) with (list_byte_of_string "null").
      rewrite Hnull. reflexivity. }
    apply chain_frame; [reflexivity|].
    apply chain_end. reflexivity. }
  split; [|split].
  - apply parseEventStream_finished_iff. exists [Some JNull], 20. auto.
  - apply parseEventStreamAsync_finished_iff. exists [Some JNull], 20. auto.
  - apply parseEventStreamAsync_finished_iff. exists [Some JNull], 20. auto.
Qed.

(** ** The translator *)

Lemma convertKiroEventToAnthropic_shape eventData blockIndex open draws0 events draws' :
  convertKiroEventToAnthropic eventData blockIndex open draws0 = Return (events, draws') ->
  (exists d, events = [content_block_delta blockIndex d])
  \/ events = []
  \/ (exists u, events = [message_delta None u])
  \/ (exists id name input,
        events = (if open then [content_block_stop blockIndex] else [])
                 ++ [content_block_start (blockIndex + 1) (ToolUseBlock id name)]
                 ++ input ++ [content_block_stop (blockIndex + 1)]
        /\ (input = []
            \/ exists j, input = [content_block_delta (blockIndex + 1) (InputJsonDelta j)])).
Proof.
  unfold convertKiroEventToAnthropic. intros H.
  repeat match type of H with
  | context [if ?c then _ else _] => destruct c eqn:?
  | context [match ?x with _ => _ end] => destruct x eqn:?
  end;
  try discriminate; injection H as <- <-;
  eauto 6;
  do 3 right;
  first
    [ eexists _, _, []; split; [reflexivity|left; reflexivity]
    | eexists _, _, [_]; split; [reflexivity|right; eexists; reflexivity] ].
Qed.

Lemma convertKiroEventToAnthropic_throws eventData blockIndex open draws0 :
  translator_throws eventData = true ->
  convertKiroEventToAnthropic eventData blockIndex open draws0 = Throw TypeError.
Proof.
  unfold convertKiroEventToAnthropic, translator_throws.
  destruct (is_null eventData); [reflexivity|]. cbn [orb].
  destruct (as_string (get eventData "content")); [discriminate|].
  destruct (truthy_opt (get eventData "assistantResponseEvent")); [discriminate|].
  cbn [negb andb].
  destruct (defined (get eventData "usage") && defined (get eventData "unit"));
    [|discriminate].
  cbn [andb].
  destruct (ToString_returns_opt (get eventData "usage")
            && ToString_returns_opt
                 (or_opt (get eventData "unitPlural") (get eventData "unit")));
    [discriminate|reflexivity].
Qed.

Lemma convertKiroEventToAnthropic_returns eventData blockIndex open draws0 :
  translator_throws eventData = false ->
  exists events draws',
    convertKiroEventToAnthropic eventData blockIndex open draws0 = Return (events, draws').
Proof.
  unfold convertKiroEventToAnthropic, translator_throws.
  destruct (is_null eventData); [discriminate|]. cbn [orb].
  destruct (as_string (get eventData "content")); [eauto|].
  destruct (truthy_opt (get eventData "assistantResponseEvent")).
  { intros _. destruct (get_opt _ "content") as [text|]; [destruct (truthy text)|]; eauto. }
  cbn [negb andb].
  destruct (defined (get eventData "usage") && defined (get eventData "unit")).
  { cbn [andb].
    destruct (ToString_returns_opt (get eventData "usage")
              && ToString_returns_opt
                   (or_opt (get eventData "unitPlural") (get eventData "unit")));
      [eauto|discriminate]. }
  intros _.
  repeat match goal with
  | |- context [if ?c then _ else _] => destruct c eqn:?
  | |- context [match ?x with _ => _ end] => destruct x eqn:?
  end; eauto.
Qed.

(** ** Event sequences *)

Lemma count_app p xs ys : count p (xs ++ ys) = (count p xs + count p ys)%nat.
Proof. unfold count. rewrite List.filter_app, length_app. reflexivity. Qed.

Lemma blocks_run_app events1 : forall open events2,
  blocks_run open (events1 ++ events2)
  = match blocks_run open events1 with
    | Some open' => blocks_run open' events2
    | None => None
    end.
Proof.
  induction events1 as [|e events1 IH]; intros open events2; [reflexivity|].
  destruct e; cbn [app blocks_run]; try apply IH.
  - destruct open; [reflexivity|apply IH].
  - destruct open as [j|]; [|reflexivity].
    destruct (index =? j); [apply IH|reflexivity].
Qed.

Lemma blocks_run_open_after events : forall open open',
  blocks_run open events = Some open' -> open_after open events = open'.
Proof.
  induction events as [|e events IH]; intros open open' Hrun.
  - cbn in *. congruence.
  - destruct e; cbn [blocks_run open_after] in *; try (apply IH; assumption).
    + destruct open; [discriminate|]. apply IH. assumption.
    + destruct open as [j|]; [|discriminate].
      destruct (index =? j); [|discriminate]. apply IH. assumption.
Qed.

(** After a start the matching stop follows, with no other start or stop in
    between. *)
Lemma blocks_run_stop_follows i post :
  blocks_run (Some i) post = Some None ->
  exists between rest,
    post = between ++ content_block_stop i :: rest
    /\ Forall (fun e => is_content_block_start e = false
                        /\ is_content_block_stop e = false) between.
Proof.
  induction post as [|e post IH]; intros Hrun; [discriminate|].
  destruct e; cbn [blocks_run] in Hrun; try discriminate;
    try (destruct (IH Hrun) as (between & rest & -> & Hbetween);
         eexists (_ :: between), rest; split; [reflexivity|];
         constructor; [split; reflexivity|assumption]).
  destruct (Z.eqb_spec index i) as [->|]; [|discriminate].
  exists [], post. split; [reflexivity|constructor].
Qed.

Lemma blocks_matched_stop_follows events before i block post :
  blocks_matched events ->
  events = before ++ content_block_start i block :: post ->
  exists between rest,
    post = between ++ content_block_stop i :: rest
    /\ Forall (fun e => is_content_block_start e = false
                        /\ is_content_block_stop e = false) between.
Proof.
  unfold blocks_matched. intros Hrun ->.
  rewrite blocks_run_app in Hrun.
  destruct (blocks_run None before) as [open|]; [|discriminate].
  cbn [blocks_run] in Hrun. destruct open; [discriminate|].
  apply blocks_run_stop_follows. assumption.
Qed.

Lemma usage_outputs_app xs ys :
  usage_outputs (xs ++ ys) = usage_outputs xs ++ usage_outputs ys.
Proof. apply omap_app. Qed.

(** ** The orchestrator *)

Lemma track_fold_fields events : forall st,
  contentBlockIndex (fold_left track events st) = contentBlockIndex st
  /\ hasStarted (fold_left track events st) = hasStarted st
  /\ draws (fold_left track events st) = draws st.
Proof.
  induction events as [|e events IH]; intros st; [auto|].
  cbn [fold_left]. destruct (IH (track st e)) as (-> & -> & ->).
  unfold track. destruct (evt_usage e); auto.
Qed.

(** The orchestrator keeps the last truthy output-token value it has seen. *)
Lemma track_fold_output events : forall st,
  outputTokens (fold_left track events st)
  = default (outputTokens st) (last (List.filter truthy (usage_outputs events))).
Proof.
  induction events as [|e events IH]; intros st; [reflexivity|].
  cbn [fold_left]. rewrite IH.
  change (e :: events) with ([e] ++ events).
  rewrite usage_outputs_app, List.filter_app, last_app.
  destruct (last (List.filter truthy (usage_outputs events))); [reflexivity|].
  unfold track, usage_outputs. destruct e; try reflexivity.
  cbn. destruct (truthy (output_tokens usage)); reflexivity.
Qed.

Lemma translate_step st event events draws' :
  convertKiroEventToAnthropic event (contentBlockIndex st) (hasOpenBlock st) (draws st)
  = Return (events, draws') ->
  blocks_run (open_index st) events
  = Some (open_index (fold_left track events (with_draws st draws')))
  /\ count is_message_start events = 0%nat
  /\ count is_message_stop events = 0%nat
  /\ count is_final_delta events = 0%nat.
Proof.
  intros Hconvert.
  apply convertKiroEventToAnthropic_shape in Hconvert
    as [(d & ->)|[->|[(u & ->)|(id & name & input & -> & Hinput)]]];
    try (split; [|auto]; unfold open_index; cbn; reflexivity).
  unfold open_index, with_draws.
  destruct Hinput as [->|(j & ->)]; destruct (hasOpenBlock st);
    cbn; rewrite ?Z.eqb_refl; auto.
Qed.

Lemma stream_loop_started messageId requestModel payloads :
  forall st events st',
    hasStarted st = true ->
    stream_loop messageId requestModel st payloads = (events, Return st') ->
    contentBlockIndex st' = contentBlockIndex st
    /\ blocks_run (open_index st) events = Some (open_index st')
    /\ count is_message_start events = 0%nat
    /\ count is_message_stop events = 0%nat
    /\ count is_final_delta events = 0%nat
    /\ outputTokens st'
       = default (outputTokens st) (last (List.filter truthy (usage_outputs events))).
Proof.
  induction payloads as [|event rest IH]; intros st events st' Hstarted Hrun.
  - cbn in Hrun. injection Hrun as <- <-. cbn. auto 10.
  - cbn [stream_loop] in Hrun. rewrite Hstarted in Hrun.
    destruct (convertKiroEventToAnthropic event (contentBlockIndex st) (hasOpenBlock st)
                (draws st)) as [[translated draws']|e] eqn:Hconvert;
      [|discriminate].
    fold (with_draws st draws') in Hrun.
    destruct (stream_loop messageId requestModel
                (fold_left track translated (with_draws st draws')) rest)
      as [more final] eqn:Hrest.
    injection Hrun as <- ->.
    destruct (track_fold_fields translated (with_draws st draws')) as (Hi & Hs & _).
    apply IH in Hrest as (Hi' & Hblocks' & Hc1' & Hc2' & Hc3' & Hout');
      [|rewrite Hs; exact Hstarted].
    apply translate_step in Hconvert as (Hblocks & Hc1 & Hc2 & Hc3).
    cbn [app]. rewrite blocks_run_app, Hblocks, !count_app, Hc1, Hc2, Hc3.
    rewrite usage_outputs_app, List.filter_app, last_app, Hout', track_fold_output.
    split; [rewrite Hi', Hi; reflexivity|].
    repeat (split; [assumption|]).
    destruct (last (List.filter truthy (usage_outputs more))); reflexivity.
Qed.

Lemma stream_loop_initial messageId requestModel payloads events st' :
  stream_loop messageId requestModel initial_state payloads = (events, Return st') ->
  contentBlockIndex st' = 0
  /\ blocks_run None events = Some (open_index st')
  /\ count is_message_stop events = 0%nat
  /\ count is_final_delta events = 0%nat
  /\ outputTokens st' = last_truthy_output events
  /\ (payloads = [] -> events = [])
  /\ (payloads <> [] ->
      exists rest,
        events = message_start messageId requestModel :: rest
        /\ count is_message_start rest = 0%nat).
Proof.
  destruct payloads as [|event rest]; intros Hrun.
  - cbn in Hrun. injection Hrun as <- <-. cbn.
    repeat (split; [reflexivity|]). intros Hne. congruence.
  - cbn [stream_loop initial_state hasStarted contentBlockIndex hasOpenBlock
         inputTokens outputTokens draws] in Hrun.
    pose (st1 := mkStreamState 0 true true (JNum 0) (JNum 0) 1).
    destruct (convertKiroEventToAnthropic event 0 true 1)
      as [[translated draws']|e] eqn:Hconvert; [|discriminate].
    change (fold_left track translated _)
      with (fold_left track translated (with_draws st1 draws')) in Hrun.
    destruct (stream_loop messageId requestModel
                (fold_left track translated (with_draws st1 draws')) rest)
      as [more final] eqn:Hrest.
    injection Hrun as <- ->.
    destruct (track_fold_fields translated (with_draws st1 draws')) as (Hi & Hs & _).
    apply stream_loop_started in Hrest as (Hi' & Hblocks' & Hc1' & Hc2' & Hc3' & Hout');
      [|rewrite Hs; reflexivity].
    pose proof (translate_step st1 _ _ _ Hconvert) as (Hblocks & Hc1 & Hc2 & Hc3).
    split; [rewrite Hi', Hi; reflexivity|].
    split.
    { cbn [app blocks_run]. rewrite blocks_run_app.
      change (Some 0) with (open_index st1). rewrite Hblocks. exact Hblocks'. }
    split; [cbn [app]; unfold count in *; cbn; rewrite List.filter_app, length_app; lia|].
    split; [cbn [app]; unfold count in *; cbn; rewrite List.filter_app, length_app; lia|].
    split.
    { unfold last_truthy_output. cbn [app].
      change (usage_outputs (message_start messageId requestModel
                :: content_block_start 0 (TextBlock "") :: translated ++ more))
        with (usage_outputs (translated ++ more)).
      rewrite usage_outputs_app, List.filter_app, last_app, Hout', track_fold_output.
      destruct (last (List.filter truthy (usage_outputs more))); reflexivity. }
    split; [discriminate|].
    intros _. eexists. split; [reflexivity|].
    unfold count in *. cbn. rewrite List.filter_app, length_app. lia.
Qed.

Lemma stream_loop_returns messageId requestModel payloads :
  forall st,
    Forall (fun payload => translator_throws payload = false) payloads ->
    exists events st',
      stream_loop messageId requestModel st payloads = (events, Return st').
Proof.
  induction payloads as [|event rest IH]; intros st Hall.
  - cbn. eauto.
  - apply Forall_cons in Hall as [Hevent Hrest].
    cbn [stream_loop].
    destruct (hasStarted st).
    + destruct (convertKiroEventToAnthropic_returns event (contentBlockIndex st)
                  (hasOpenBlock st) (draws st) Hevent) as (translated & draws' & ->).
      edestruct IH as (more & st' & ->); [exact Hrest|]. eauto.
    + cbn [contentBlockIndex hasOpenBlock draws hasStarted inputTokens outputTokens].
      destruct (convertKiroEventToAnthropic_returns event (contentBlockIndex st)
                  true (draws st) Hevent) as (translated & draws' & ->).
      edestruct IH as (more & st' & ->); [exact Hrest|]. eauto.
Qed.

Lemma closing_events_blocks st :
  blocks_run (open_index st) (closing_events st) = Some None.
Proof.
  unfold open_index, closing_events.
  destruct (hasOpenBlock st); cbn; rewrite ?Z.eqb_refl; reflexivity.
Qed.

Lemma closing_events_counts st :
  count is_message_start (closing_events st) = 0%nat
  /\ count is_message_stop (closing_events st) = 1%nat
  /\ last (closing_events st) = Some message_stop.
Proof. unfold closing_events. destruct (hasOpenBlock st); cbn; auto. Qed.

(** C1, as amended.  For every non-empty sequence of decoded payloads none of
    which makes the translator throw (none is [null], and none is a usage
    record whose [usage] or [unitPlural || unit] cannot be converted to a
    string), the orchestrator completes, and the sequence it emits starts
    with [message_start] and holds no other [message_start], ends with
    [message_stop] and holds no other [message_stop], and every
    [content_block_start] in it is followed by the [content_block_stop] of
    the same index before any other block starts or stops. *)
Theorem streamKiroResponse_well_formed requestModel payloads :
  payloads <> [] ->
  Forall (fun payload => translator_throws payload = false) payloads ->
  exists events,
    streamKiroResponse requestModel (payloads, Finished tt) = (events, Finished tt)
    /\ head events = Some (message_start (synthetic_id "msg_" 0) requestModel)
    /\ count is_message_start events = 1%nat
    /\ last events = Some message_stop
    /\ count is_message_stop events = 1%nat
    /\ blocks_matched events
    /\ (forall before i block post,
          events = before ++ content_block_start i block :: post ->
          exists between rest,
            post = between ++ content_block_stop i :: rest
            /\ Forall (fun e => is_content_block_start e = false
                                /\ is_content_block_stop e = false) between).
Proof.
  intros Hne Hall.
  destruct (stream_loop_returns (synthetic_id "msg_" 0) requestModel payloads
              initial_state Hall) as (translated & st & Hloop).
  destruct (stream_loop_initial _ _ _ _ _ Hloop)
    as (_ & Hblocks & Hstop & _ & _ & _ & Hstart).
  destruct (Hstart Hne) as (rest & -> & Hrest).
  destruct (closing_events_counts st) as (Hc1 & Hc2 & Hlast).
  assert (blocks_matched
            ((message_start (synthetic_id "msg_" 0) requestModel :: rest)
               ++ closing_events st)) as Hmatched.
  { unfold blocks_matched. rewrite blocks_run_app, Hblocks.
    apply closing_events_blocks. }
  eexists. split; [|split; [|split; [|split; [|split; [|split]]]]].
  - unfold streamKiroResponse. cbn [fst snd]. rewrite Hloop. reflexivity.
  - reflexivity.
  - rewrite count_app, Hc1. unfold count in *. cbn. lia.
  - rewrite last_app, Hlast. reflexivity.
  - rewrite count_app, Hstop, Hc2. reflexivity.
  - exact Hmatched.
  - intros before i block post. apply blocks_matched_stop_follows. exact Hmatched.
Qed.

(** C2, at the input where it fails.  Two tool invocations in a row are both
    emitted at index 1: the orchestrator passes its [contentBlockIndex] to
    the translator and never assigns it, so it is 0 after every sequence of
    payloads. *)
Theorem streamKiroResponse_two_tools requestModel :
  streamKiroResponse requestModel
    ([tool_payload "a" "f"; tool_payload "b" "g"], Finished tt)
  = ([message_start (synthetic_id "msg_" 0) requestModel;
      content_block_start 0 (TextBlock "");
      content_block_stop 0;
      content_block_start 1 (ToolUseBlock (JStr "a") (Some (JStr "f")));
      content_block_stop 1;
      content_block_start 1 (ToolUseBlock (JStr "b") (Some (JStr "g")));
      content_block_stop 1;
      message_delta (Some "end_turn"%string) (mkUsage None (JNum 0));
      message_stop],
     Finished tt)
  /\ forall payloads events st,
       stream_loop (synthetic_id "msg_" 0) requestModel initial_state payloads
       = (events, Return st) ->
       contentBlockIndex st = 0.
Proof.
  split; [reflexivity|].
  intros payloads events st Hloop.
  apply stream_loop_initial in Hloop as (Hindex & _). exact Hindex.
Qed.

(** C4. The payloads [{content: "Hello "}] and [{content: "world"}] followed
    by the end of the stream give [message_start], the start of text block 0,
    the two text deltas at index 0, the stop of block 0, the [message_delta]
    with stop reason [end_turn], and [message_stop]. *)
Theorem streamKiroResponse_hello_world requestModel :
  streamKiroResponse requestModel
    ([content_payload "Hello "; content_payload "world"], Finished tt)
  = ([message_start (synthetic_id "msg_" 0) requestModel;
      content_block_start 0 (TextBlock "");
      content_block_delta 0 (TextDelta (JStr "Hello "));
      content_block_delta 0 (TextDelta (JStr "world"));
      content_block_stop 0;
      message_delta (Some "end_turn"%string) (mkUsage None (JNum 0));
      message_stop],
     Finished tt).
Proof. reflexivity. Qed.

(** C5, as amended.  When the source is exhausted the orchestrator emits,
    after the events of the loop: [content_block_stop] for the block those
    events leave open, which is block [contentBlockIndex] and is there
    exactly when [hasOpenBlock] is set; then one [message_delta] with stop
    reason [end_turn] whose usage carries the last truthy (non-zero)
    output-token value of the usage-bearing events emitted before, 0 if there
    is none; then [message_stop].  No event of the loop is a [message_stop]
    or carries a stop reason. *)
Theorem streamKiroResponse_closing requestModel payloads events :
  streamKiroResponse requestModel (payloads, Finished tt) = (events, Finished tt) ->
  exists translated st,
    stream_loop (synthetic_id "msg_" 0) requestModel initial_state payloads
    = (translated, Return st)
    /\ events
       = translated
         ++ match open_after None translated with
            | Some i => [content_block_stop i]
            | None => []
            end
         ++ [message_delta (Some "end_turn"%string)
               (mkUsage None (last_truthy_output translated));
             message_stop]
    /\ open_after None translated
       = (if hasOpenBlock st then Some (contentBlockIndex st) else None)
    /\ count is_final_delta translated = 0%nat
    /\ count is_message_stop translated = 0%nat.
Proof.
  unfold streamKiroResponse. cbn [fst snd]. intros Hrun.
  destruct (stream_loop (synthetic_id "msg_" 0) requestModel initial_state payloads)
    as [translated [st|e]] eqn:Hloop; [|discriminate].
  injection Hrun as <-.
  destruct (stream_loop_initial _ _ _ _ _ Hloop)
    as (_ & Hblocks & Hstop & Hfinal & Hout & _ & _).
  apply blocks_run_open_after in Hblocks.
  exists translated, st.
  split; [reflexivity|]. split; [|split; [exact Hblocks|split; assumption]].
  rewrite Hblocks, <- Hout. unfold closing_events, open_index.
  destruct (hasOpenBlock st); reflexivity.
Qed.

(** X3. The translator opens a block only for a tool invocation: the start is at
    [blockIndex + 1] with kind tool_use, it comes after the stop of the block
    that was open, if one was, and is followed by at most one partial-input
    delta and by the stop, both at [blockIndex + 1]. *)
Theorem convertKiroEventToAnthropic_start eventData blockIndex open draws0 events draws'
    i block :
  convertKiroEventToAnthropic eventData blockIndex open draws0 = Return (events, draws') ->
  In (content_block_start i block) events ->
  i = blockIndex + 1
  /\ exists id name input,
       block = ToolUseBlock id name
       /\ events = (if open then [content_block_stop blockIndex] else [])
                   ++ [content_block_start (blockIndex + 1) block]
                   ++ input ++ [content_block_stop (blockIndex + 1)]
       /\ (input = []
           \/ exists j,
                input = [content_block_delta (blockIndex + 1) (InputJsonDelta j)]).
Proof.
  intros Hconvert Hin.
  apply convertKiroEventToAnthropic_shape in Hconvert
    as [(d & ->)|[->|[(u & ->)|(id & name & input & -> & Hinput)]]].
  - destruct Hin as [Hin|[]]. discriminate Hin.
  - destruct Hin.
  - destruct Hin as [Hin|[]]. discriminate Hin.
  - assert (content_block_start (blockIndex + 1) (ToolUseBlock id name)
            = content_block_start i block) as Heq.
    { destruct Hinput as [->|(j & ->)]; destruct open; cbn in Hin;
        repeat (destruct Hin as [Hin|Hin]; [try discriminate Hin; try exact Hin|]);
        destruct Hin. }
    injection Heq as <- <-. split; [reflexivity|]. eauto 6.
Qed.

(** ** Payloads the translator cannot take *)

Lemma stream_loop_app messageId requestModel before : forall st after,
  stream_loop messageId requestModel st (before ++ after)
  = match stream_loop messageId requestModel st before with
    | (events, Return st') =>
        let '(more, final) := stream_loop messageId requestModel st' after in
        (events ++ more, final)
    | (events, Throw e) => (events, Throw e)
    end.
Proof.
  induction before as [|event rest IH]; intros st after.
  - cbn [app stream_loop].
    destruct (stream_loop messageId requestModel st after); reflexivity.
  - cbn [app stream_loop].
    destruct (if hasStarted st then _ else _) as [opening st1].
    destruct (convertKiroEventToAnthropic event (contentBlockIndex st1)
                (hasOpenBlock st1) (draws st1)) as [[translated draws']|e];
      [|reflexivity].
    rewrite IH.
    destruct (stream_loop messageId requestModel
                (fold_left track translated (with_draws st1 draws')) rest)
      as [events [st'|e]]; [|reflexivity].
    destruct (stream_loop messageId requestModel st' after) as [more final].
    rewrite !app_assoc. reflexivity.
Qed.

Lemma stream_loop_hasStarted messageId requestModel payloads : forall st events st',
  stream_loop messageId requestModel st payloads = (events, Return st') ->
  hasStarted st' = (hasStarted st || negb (bool_decide (payloads = []))).
Proof.
  induction payloads as [|event rest IH]; intros st events st' Hrun.
  - cbn in Hrun. injection Hrun as _ <-. cbn. rewrite orb_false_r. reflexivity.
  - cbn [stream_loop] in Hrun.
    rewrite bool_decide_eq_false_2 by discriminate. cbn [negb]. rewrite orb_true_r.
    destruct (hasStarted st) eqn:Hstarted.
    + destruct (convertKiroEventToAnthropic event (contentBlockIndex st)
                  (hasOpenBlock st) (draws st)) as [[translated draws']|e];
        [|discriminate].
      destruct (stream_loop messageId requestModel
                  (fold_left track translated (with_draws st draws')) rest)
        as [more final] eqn:Hrest.
      injection Hrun as _ ->.
      apply IH in Hrest. rewrite Hrest.
      destruct (track_fold_fields translated (with_draws st draws')) as (_ & -> & _).
      cbn. rewrite Hstarted. reflexivity.
    + cbn [contentBlockIndex hasOpenBlock draws] in Hrun.
      destruct (convertKiroEventToAnthropic event (contentBlockIndex st) true (draws st))
        as [[translated draws']|e]; [|discriminate].
      destruct (stream_loop messageId requestModel
                  (fold_left track translated _) rest)
        as [more final] eqn:Hrest.
      injection Hrun as _ ->.
      apply IH in Hrest. rewrite Hrest.
      match goal with
      | |- context [fold_left track translated ?s] =>
          destruct (track_fold_fields translated s) as (_ & -> & _)
      end.
      reflexivity.
Qed.

Lemma stream_loop_throws messageId requestModel st payload after :
  translator_throws payload = true ->
  stream_loop messageId requestModel st (payload :: after)
  = ((if hasStarted st then []
      else [message_start messageId requestModel;
            content_block_start (contentBlockIndex st) (TextBlock "")]),
     Throw TypeError).
Proof.
  intros Hthrows. cbn [stream_loop].
  destruct (hasStarted st);
    cbn [contentBlockIndex hasOpenBlock draws];
    rewrite (convertKiroEventToAnthropic_throws _ _ _ _ Hthrows); reflexivity.
Qed.

(** X7. The translator throws exactly on the payloads of [translator_throws]:
    on [null], and on a usage record, met when there is neither a string
    [content] nor a truthy [assistantResponseEvent], whose [usage] and
    [unitPlural || unit] do not both convert to a string.  What it throws is
    a TypeError.  On every other payload it returns, whatever the block
    index, the open flag and the identifiers drawn so far. *)
Theorem convertKiroEventToAnthropic_throws_iff eventData blockIndex open draws0 :
  ((exists e, convertKiroEventToAnthropic eventData blockIndex open draws0 = Throw e)
   <-> translator_throws eventData = true)
  /\ ((exists events draws',
         convertKiroEventToAnthropic eventData blockIndex open draws0
         = Return (events, draws'))
      <-> translator_throws eventData = false)
  /\ (forall e,
        convertKiroEventToAnthropic eventData blockIndex open draws0 = Throw e ->
        e = TypeError).
Proof.
  destruct (translator_throws eventData) eqn:Hthrows.
  - pose proof (convertKiroEventToAnthropic_throws eventData blockIndex open draws0
                  Hthrows) as Hrun.
    rewrite Hrun. split; [|split].
    + split; [reflexivity|]. intros _. exists TypeError. reflexivity.
    + split; [|discriminate]. intros (events & draws' & Habsurd). discriminate Habsurd.
    + intros e He. injection He as <-. reflexivity.
  - destruct (convertKiroEventToAnthropic_returns eventData blockIndex open draws0
                Hthrows) as (events & draws' & Hrun).
    rewrite Hrun. split; [|split].
    + split; [|discriminate]. intros (e & Habsurd). discriminate Habsurd.
    + split; [reflexivity|]. intros _. exists events, draws'. reflexivity.
    + intros e Habsurd. discriminate Habsurd.
Qed.

(** X8. When the translator throws on a payload, the orchestrator ends with
    that TypeError, however the source would have gone on: it has emitted
    the events of the payloads before, and the opening [message_start] and
    [content_block_start] of block 0 if the payload is the first, and
    nothing else.  No [message_delta] with a stop reason and no
    [message_stop] is emitted, and a block the earlier events left open
    stays open. *)
Theorem streamKiroResponse_raises requestModel before payload after final :
  Forall (fun earlier => translator_throws earlier = false) before ->
  translator_throws payload = true ->
  exists translated st,
    stream_loop (synthetic_id "msg_" 0) requestModel initial_state before
    = (translated, Return st)
    /\ streamKiroResponse requestModel (before ++ payload :: after, final)
       = (translated
          ++ match before with
             | [] => [message_start (synthetic_id "msg_" 0) requestModel;
                      content_block_start 0 (TextBlock "")]
             | _ :: _ => []
             end,
          Raised TypeError)
    /\ count is_message_stop
         (fst (streamKiroResponse requestModel (before ++ payload :: after, final)))
       = 0%nat
    /\ count is_final_delta
         (fst (streamKiroResponse requestModel (before ++ payload :: after, final)))
       = 0%nat
    /\ blocks_run None
         (fst (streamKiroResponse requestModel (before ++ payload :: after, final)))
       = Some (match before with [] => Some 0 | _ :: _ => open_index st end).
Proof.
  intros Hbefore Hthrows.
  destruct (stream_loop_returns (synthetic_id "msg_" 0) requestModel before
              initial_state Hbefore) as (translated & st & Hloop).
  exists translated, st. split; [exact Hloop|].
  assert (streamKiroResponse requestModel (before ++ payload :: after, final)
          = (translated
             ++ match before with
                | [] => [message_start (synthetic_id "msg_" 0) requestModel;
                         content_block_start 0 (TextBlock "")]
                | _ :: _ => []
                end,
             Raised TypeError)) as Hrun.
  { unfold streamKiroResponse. cbn [fst snd].
    rewrite stream_loop_app, Hloop, (stream_loop_throws _ _ _ _ _ Hthrows).
    rewrite (stream_loop_hasStarted _ _ _ _ _ _ Hloop).
    destruct (stream_loop_initial _ _ _ _ _ Hloop) as (Hindex & _).
    rewrite Hindex.
    destruct before; reflexivity. }
  split; [exact Hrun|]. rewrite Hrun. cbn [fst].
  destruct (stream_loop_initial _ _ _ _ _ Hloop)
    as (_ & Hblocks & Hstop & Hfinal & _ & Hempty & _).
  destruct before as [|first rest].
  - rewrite (Hempty eq_refl). repeat split; reflexivity.
  - rewrite app_nil_r. repeat split; assumption.
Qed.

(** ** Streams of whole frames *)

Lemma frames_chain frames tail :
  Forall well_delimited frames ->
  complete_at tail 0 = false ->
  chain (concat frames ++ tail) 0 (map (fun frame => payload_at frame 0) frames)
    (byteLength (concat frames)).
Proof.
  intros Hframes Htail.
  induction Hframes as [|frame frames [Hlen Htotal] _ IH].
  - change (chain tail 0 [] 0). constructor. rewrite Htail. apply andb_false_r.
  - cbn [concat map]. rewrite <- app_assoc.
    assert ((0 <? byteLength frame) && complete_at frame 0 = true) as Hc.
    { unfold complete_at. rewrite Htotal.
      apply andb_true_iff. split; [apply Z.ltb_lt; lia|].
      apply andb_true_iff. split; apply Z.leb_le; lia. }
    destruct (complete_at_app frame (concat frames ++ tail) 0 ltac:(lia) Hc)
      as (Hc' & Ht & Hp).
    rewrite <- Hp. constructor; [exact Hc'|].
    rewrite Ht, Htotal, byteLength_app.
    replace (byteLength frame + byteLength (concat frames))
      with (byteLength (concat frames) + Z.of_nat (length frame))
      by (unfold byteLength; lia).
    apply (chain_undrop (frame ++ concat frames ++ tail) (length frame) 0);
      [rewrite drop_app_length; exact IH|lia|rewrite length_app; lia].
Qed.

Lemma whole_frames_async frames tail chunks :
  Forall well_delimited frames ->
  complete_at tail 0 = false ->
  concat chunks = concat frames ++ tail ->
  parseEventStreamAsync chunks
  = (yielded (map (fun frame => payload_at frame 0) frames), Finished tt).
Proof.
  intros Hframes Htail Hchunks.
  apply parseEventStreamAsync_finished_iff. rewrite Hchunks.
  pose proof (frames_chain frames tail Hframes Htail). eauto.
Qed.

Lemma whole_frames_sync frames tail :
  Forall well_delimited frames ->
  complete_at tail 0 = false ->
  parseEventStream (concat frames ++ tail)
  = Finished (non_null (yielded (map (fun frame => payload_at frame 0) frames))).
Proof.
  intros Hframes Htail.
  apply parseEventStream_finished_iff.
  pose proof (frames_chain frames tail Hframes Htail). eauto.
Qed.

(** X4. On a stream of whole frames, followed by a frame that is not complete,
    both parsers end, whatever the chunks: the incremental parser has yielded
    the payloads of the frames in order, and the one-shot parser returns
    those that are not [null]. *)
Theorem parsers_decode_frames frames tail chunks :
  Forall well_delimited frames ->
  complete_at tail 0 = false ->
  concat chunks = concat frames ++ tail ->
  parseEventStream (concat frames ++ tail)
  = Finished (non_null (yielded (map (fun frame => payload_at frame 0) frames)))
  /\ parseEventStreamAsync chunks
     = (yielded (map (fun frame => payload_at frame 0) frames), Finished tt).
Proof.
  intros Hframes Htail Hchunks. split.
  - apply whole_frames_sync; assumption.
  - apply whole_frames_async with (tail := tail); assumption.
Qed.



(** ** Framing round trip *)

Lemma byte_of_Z_value z : Z.of_N (Byte.to_N (byte_of_Z z)) = z mod 256.
Proof.
  unfold byte_of_Z.
  pose proof (Z.mod_pos_bound z 256 ltac:(lia)) as Hm.
  destruct (Byte.of_N (Z.to_N (z mod 256))) as [b|] eqn:Hb.
  - apply Byte.to_of_N in Hb. change (default x00 (Some b)) with b. rewrite Hb. lia.
  - apply Byte.of_N_None_iff in Hb. lia.
Qed.

Lemma u32be_be32 n rest :
  0 <= n < 4294967296 -> u32be (be32 n ++ rest) 0 = n.
Proof.
  intros Hn. unfold u32be, be32, byteAt.
  change ((_ ++ rest) !! Z.to_nat 0) with (Some (byte_of_Z (n / 16777216))).
  change ((_ ++ rest) !! Z.to_nat (0 + 1)) with (Some (byte_of_Z (n / 65536))).
  change ((_ ++ rest) !! Z.to_nat (0 + 2)) with (Some (byte_of_Z (n / 256))).
  change ((_ ++ rest) !! Z.to_nat (0 + 3)) with (Some (byte_of_Z n)).
  cbv beta iota. rewrite !byte_of_Z_value.
  clear - Hn. Z.div_mod_to_equations. lia.
Qed.

Lemma frame_of_length payload :
  byteLength (frame_of payload) = 16 + Z.of_nat (length payload).
Proof.
  unfold byteLength, frame_of. rewrite !length_app. cbn [length be32]. lia.
Qed.

Lemma frame_of_well_delimited payload :
  16 + Z.of_nat (length payload) < 4294967296 ->
  well_delimited (frame_of payload).
Proof.
  intros Hsize. unfold well_delimited. rewrite frame_of_length.
  split; [lia|]. unfold totalLength_at, frame_of. apply u32be_be32. lia.
Qed.

Lemma frame_of_payload payload :
  16 + Z.of_nat (length payload) < 4294967296 ->
  payload_at (frame_of payload) 0
  = if has_bytes payload then Some (decodePayload payload) else None.
Proof.
  intros Hsize.
  assert (totalLength_at (frame_of payload) 0 = 16 + Z.of_nat (length payload)) as Ht.
  { unfold totalLength_at, frame_of. apply u32be_be32. lia. }
  assert (headersLength_at (frame_of payload) 0 = 0) as Hh.
  { unfold headersLength_at.
    change (0 + 4) with (0 + Z.of_nat 4).
    rewrite <- u32be_drop by lia.
    change (drop 4 (frame_of payload)) with (be32 0 ++ be32 0 ++ payload ++ be32 0).
    apply u32be_be32. lia. }
  unfold payload_at, payloadOffset_at, payloadLength_at, slice. rewrite Ht, Hh.
  destruct payload as [|b payload]; [reflexivity|].
  destruct (Z.gtb_spec (16 + Z.of_nat (length (b :: payload)) - 0 - 16) 0) as [_|Hle];
    [|cbn [length] in Hle; lia].
  cbn [has_bytes]. do 2 f_equal.
  change (drop (Z.to_nat (0 + 12 + 0)) (frame_of (b :: payload)))
    with ((b :: payload) ++ be32 0).
  replace (Z.to_nat (0 + 12 + 0 + (16 + Z.of_nat (length (b :: payload)) - 0 - 16)
                     - (0 + 12 + 0)))
    with (length (b :: payload)) by lia.
  apply take_app_length.
Qed.

Lemma frames_of_well_delimited payloads :
  Forall (fun payload => 16 + Z.of_nat (length payload) < 4294967296) payloads ->
  Forall well_delimited (map frame_of payloads).
Proof.
  intros Hsizes. apply Forall_map. eapply Forall_impl; [exact Hsizes|].
  intros payload. apply frame_of_well_delimited.
Qed.

Lemma frames_of_yielded payloads :
  Forall (fun payload => 16 + Z.of_nat (length payload) < 4294967296) payloads ->
  yielded (map (fun frame => payload_at frame 0) (map frame_of payloads))
  = map decodePayload (List.filter has_bytes payloads).
Proof.
  induction 1 as [|payload payloads Hsize _ IH]; [reflexivity|].
  cbn [map List.filter].
  rewrite (yielded_cons (payload_at (frame_of payload) 0)), IH,
    (frame_of_payload payload Hsize).
  destruct (has_bytes payload); reflexivity.
Qed.

(** X5. Framing round trip: when payloads are framed, the frames are
    concatenated, possibly followed by an incomplete frame, and the bytes
    arrive in any chunks, the incremental parser yields the decoding of
    exactly the bytes of each payload that is not empty, in order, and the
    one-shot parser returns those of them that are not [null]. *)
Theorem framing_round_trip payloads tail chunks :
  Forall (fun payload => 16 + Z.of_nat (length payload) < 4294967296) payloads ->
  complete_at tail 0 = false ->
  concat chunks = concat (map frame_of payloads) ++ tail ->
  parseEventStreamAsync chunks
  = (map decodePayload (List.filter has_bytes payloads), Finished tt)
  /\ parseEventStream (concat (map frame_of payloads) ++ tail)
     = Finished (non_null (map decodePayload (List.filter has_bytes payloads))).
Proof.
  intros Hsizes Htail Hchunks.
  rewrite <- (frames_of_yielded payloads Hsizes).
  pose proof (frames_of_well_delimited payloads Hsizes) as Hframes.
  split.
  - apply whole_frames_async with (tail := tail); assumption.
  - apply whole_frames_sync; assumption.
Qed.

(** X6. The bridge on the scenario of the design document: two frames whose
    payloads are the JSON texts of [{content: "Hello "}] and
    [{content: "world"}], in any chunks, give [message_start], the start of
    text block 0, the two text deltas, the stop of block 0, the closing
    [message_delta] and [message_stop]. *)
Theorem bridge_hello_world requestModel hello world chunks :
  JSON_parse (TextDecoder_decode hello) = Return (content_payload "Hello ") ->
  JSON_parse (TextDecoder_decode world) = Return (content_payload "world") ->
  has_bytes hello = true ->
  has_bytes world = true ->
  16 + Z.of_nat (length hello) < 4294967296 ->
  16 + Z.of_nat (length world) < 4294967296 ->
  concat chunks = frame_of hello ++ frame_of world ->
  streamKiroResponse requestModel (parseEventStreamAsync chunks)
  = ([message_start (synthetic_id "msg_" 0) requestModel;
      content_block_start 0 (TextBlock "");
      content_block_delta 0 (TextDelta (JStr "Hello "));
      content_block_delta 0 (TextDelta (JStr "world"));
      content_block_stop 0;
      message_delta (Some "end_turn"%string) (mkUsage None (JNum 0));
      message_stop],
     Finished tt).
Proof.
  intros Hhello Hworld Hb1 Hb2 Hs1 Hs2 Hchunks.
  assert (Forall (fun payload => 16 + Z.of_nat (length payload) < 4294967296)
            [hello; world]) as Hsizes by (repeat constructor; assumption).
  rewrite (whole_frames_async (map frame_of [hello; world]) [] chunks).
  - rewrite (frames_of_yielded _ Hsizes). cbn [List.filter map].
    rewrite Hb1, Hb2. cbn [map]. unfold decodePayload. rewrite Hhello, Hworld.
    reflexivity.
  - apply frames_of_well_delimited. exact Hsizes.
  - reflexivity.
  - cbn [concat map]. rewrite !app_nil_r. exact Hchunks.
Qed.

(** ** Conversions *)

Lemma string_app_assoc (s t u : string) : (s +:+ t) +:+ u = s +:+ (t +:+ u).
Proof.
  induction s as [|c s IH]; [reflexivity|].
  change (String c ((s +:+ t) +:+ u) = String c (s +:+ (t +:+ u))).
  rewrite IH. reflexivity.
Qed.

Lemma string_app_nil_r (s : string) : s +:+ "" = s.
Proof.
  induction s as [|c s IH]; [reflexivity|].
  change (String c (s +:+ "") = String c s). rewrite IH. reflexivity.
Qed.

Lemma string_concat_cons (text : string) (texts : list string) :
  String.concat "" (text :: texts) = text +:+ String.concat "" texts.
Proof.
  destruct texts as [|next texts]; [|reflexivity].
  change (text = text +:+ ""). rewrite string_app_nil_r. reflexivity.
Qed.

(** [ToString_returns] decides whether [ToString] returns, and what it throws
    is a TypeError. *)
Lemma ToString_spec : forall v,
  if ToString_returns v then exists text, ToString v = Return text
  else ToString v = Throw TypeError.
Proof.
  fix IH 1. intros [|b|x|s|items|fields]; cbn [ToString_returns ToString]; eauto.
  - induction items as [|item rest IHrest]; cbn [forallb]; [eauto|].
    assert (if ToString_returns item
            then exists text,
                   (if is_null item then Return ""%string else ToString item)
                   = Return text
            else (if is_null item then Return ""%string else ToString item)
                 = Throw TypeError) as Hitem.
    { specialize (IH item). destruct item; cbn [is_null ToString_returns]; eauto. }
    destruct (ToString_returns item);
      [destruct Hitem as (text & ->)|rewrite Hitem; reflexivity].
    cbn [andb mbind Result_bind].
    destruct (forallb ToString_returns rest) eqn:Hrest.
    + destruct IHrest as (more & Hmore).
      destruct rest as [|next rest]; [eauto|]. rewrite Hmore. cbn. eauto.
    + destruct rest as [|next rest]; [discriminate Hrest|].
      rewrite IHrest. reflexivity.
  - destruct (defined (lookup_field "toString" fields)); cbn; eauto.
Qed.

Lemma ToString_returns_opt_spec v :
  ToString_returns v = true -> exists text, ToString v = Return text.
Proof. intros H. pose proof (ToString_spec v) as Hspec. rewrite H in Hspec. exact Hspec. Qed.

Lemma ToString_throws v :
  ToString_returns v = false -> ToString v = Throw TypeError.
Proof. intros H. pose proof (ToString_spec v) as Hspec. rewrite H in Hspec. exact Hspec. Qed.

Lemma ToNumber_spec v :
  if ToString_returns v then exists n, ToNumber v = Return n
  else ToNumber v = Throw TypeError.
Proof.
  pose proof (ToString_spec v) as Hspec.
  destruct v; cbn [ToString_returns ToNumber] in *; eauto;
    match goal with
    | |- context [if ?c then _ else _] => destruct c
    end;
    [destruct Hspec as (text & ->)|rewrite Hspec|destruct Hspec as (text & ->)|rewrite Hspec];
    cbn; eauto.
Qed.

(** ** The one-shot path *)

(** The update of the usage by one event. *)
Lemma usage_update_spec (usage0 : Usage) event :
  if ToString_returns_opt (get event "usage")
  then exists usage',
         (if usage_bearing event then
            n ← ToNumber (or_else (get event "usage") (JNum 0));
            Return (mkUsage (input_tokens usage0) (JNum (Math_round (n * 1000)%float)))
          else Return usage0) = Return usage'
         /\ input_tokens usage' = input_tokens usage0
         /\ (usage_bearing event = false -> usage' = usage0)
         /\ (usage_bearing event = true ->
             exists n,
               ToNumber (or_else (get event "usage") (JNum 0)) = Return n
               /\ usage' = mkUsage (input_tokens usage0)
                             (JNum (Math_round (n * 1000)%float)))
  else (if usage_bearing event then
          n ← ToNumber (or_else (get event "usage") (JNum 0));
          Return (mkUsage (input_tokens usage0) (JNum (Math_round (n * 1000)%float)))
        else Return usage0) = Throw TypeError.
Proof.
  unfold usage_bearing.
  destruct (get event "usage") as [usage|]; cbn [ToString_returns_opt or_else defined].
  - rewrite orb_true_r.
    pose proof (ToNumber_spec usage) as Hu.
    destruct (ToString_returns usage) eqn:Hreturns.
    + assert (exists n, ToNumber (if truthy usage then usage else JNum 0) = Return n)
        as (n & Hn).
      { destruct (truthy usage); [exact Hu|]. cbn. eauto. }
      rewrite Hn. cbn [mbind Result_bind]. eexists. split; [reflexivity|].
      split; [reflexivity|]. split; [discriminate|]. eauto.
    + assert (truthy usage = true) as ->.
      { destruct usage; cbn in Hreturns; try discriminate; reflexivity. }
      rewrite Hu. reflexivity.
  - rewrite orb_false_r.
    destruct (is_credit (get event "unit")).
    + cbn [ToNumber mbind Result_bind]. eexists. split; [reflexivity|].
      split; [reflexivity|]. split; [discriminate|]. eauto.
    + eexists. split; [reflexivity|].
      split; [reflexivity|]. split; [reflexivity|discriminate].
Qed.

Lemma extractContentFromEvents_step_spec state event :
  if extractor_throws event
  then extractContentFromEvents_step state event = Throw TypeError
  else exists state',
         extractContentFromEvents_step state event = Return state'
         /\ input_tokens (extractedUsage state') = input_tokens (extractedUsage state)
         /\ (usage_bearing event = false -> extractedUsage state' = extractedUsage state)
         /\ (usage_bearing event = true ->
             exists n,
               ToNumber (or_else (get event "usage") (JNum 0)) = Return n
               /\ extractedUsage state'
                  = mkUsage (input_tokens (extractedUsage state))
                      (JNum (Math_round (n * 1000)%float))).
Proof.
  unfold extractor_throws, extractContentFromEvents_step.
  destruct (is_null event); [reflexivity|]. cbn [orb].
  fold (usage_bearing event).
  pose proof (usage_update_spec (extractedUsage state) event) as Hu.
  assert (exists fullContent',
            (if ToString_returns_opt (get event "content")
             then match get event "content" with
                  | Some content =>
                      text ← ToString content; Return (fullContent state +:+ text)
                  | None => Return (fullContent state)
                  end = Return fullContent'
             else match get event "content" with
                  | Some content =>
                      text ← ToString content; Return (fullContent state +:+ text)
                  | None => Return (fullContent state)
                  end = Throw TypeError)) as (fullContent' & Hc).
  { destruct (get event "content") as [content|]; cbn [ToString_returns_opt]; [|eauto].
    pose proof (ToString_spec content) as Hc.
    destruct (ToString_returns content).
    - destruct Hc as (text & ->). eexists. reflexivity.
    - exists ""%string. rewrite Hc. reflexivity. }
  destruct (ToString_returns_opt (get event "content")); rewrite Hc; [|reflexivity].
  cbn [negb orb mbind Result_bind].
  destruct (ToString_returns_opt (get event "usage")); [|rewrite Hu; reflexivity].
  destruct Hu as (usage' & -> & Hinput & Hsame & Hset).
  cbn [negb mbind Result_bind]. eexists. split; [reflexivity|].
  cbn [extractedUsage]. auto.
Qed.

Lemma extractContentFromEvents_loop_app before : forall state after,
  extractContentFromEvents_loop state (before ++ after)
  = (state' ← extractContentFromEvents_loop state before;
     extractContentFromEvents_loop state' after).
Proof.
  induction before as [|event rest IH]; intros state after; [reflexivity|].
  cbn [app extractContentFromEvents_loop].
  destruct (extractContentFromEvents_step state event); [|reflexivity].
  cbn [mbind Result_bind]. apply IH.
Qed.

Lemma extractContentFromEvents_loop_returns events : forall state,
  Forall (fun event => extractor_throws event = false) events ->
  exists state', extractContentFromEvents_loop state events = Return state'.
Proof.
  induction events as [|event rest IH]; intros state Hall; [cbn; eauto|].
  apply Forall_cons in Hall as [Hevent Hrest].
  cbn [extractContentFromEvents_loop].
  pose proof (extractContentFromEvents_step_spec state event) as Hstep.
  rewrite Hevent in Hstep. destruct Hstep as (state' & -> & _).
  cbn [mbind Result_bind]. apply IH. exact Hrest.
Qed.

Lemma extractContentFromEvents_loop_throws events : forall state,
  Exists (fun event => extractor_throws event = true) events ->
  extractContentFromEvents_loop state events = Throw TypeError.
Proof.
  induction events as [|event rest IH]; intros state Hex;
    [apply Exists_nil in Hex; destruct Hex|].
  cbn [extractContentFromEvents_loop].
  pose proof (extractContentFromEvents_step_spec state event) as Hstep.
  destruct (extractor_throws event) eqn:Hevent.
  - rewrite Hstep. reflexivity.
  - destruct Hstep as (state' & -> & _). cbn [mbind Result_bind].
    apply IH. apply Exists_cons in Hex as [Hex|Hex]; [congruence|exact Hex].
Qed.

(** The events before the last usage-bearing one do not count. *)
Lemma extractContentFromEvents_loop_usage events : forall state state',
  extractContentFromEvents_loop state events = Return state' ->
  input_tokens (extractedUsage state') = input_tokens (extractedUsage state)
  /\ (Forall (fun event => usage_bearing event = false) events ->
      extractedUsage state' = extractedUsage state).
Proof.
  induction events as [|event rest IH]; intros state state' Hrun.
  - cbn in Hrun. injection Hrun as <-. auto.
  - cbn [extractContentFromEvents_loop] in Hrun.
    pose proof (extractContentFromEvents_step_spec state event) as Hstep.
    destruct (extractor_throws event).
    + rewrite Hstep in Hrun. discriminate Hrun.
    + destruct Hstep as (state1 & Hstep & Hinput & Hsame & _).
      rewrite Hstep in Hrun. cbn [mbind Result_bind] in Hrun.
      apply IH in Hrun as (Hinput' & Hsame').
      split; [congruence|].
      intros Hall. apply Forall_cons in Hall as [Hevent Hrest].
      rewrite (Hsame' Hrest). apply Hsame. exact Hevent.
Qed.

Lemma extractContentFromEvents_loop_texts texts : forall state,
  extractContentFromEvents_loop state (map content_payload texts)
  = Return (mkExtracted (fullContent state +:+ String.concat "" texts)
              (extractedUsage state) (toolUses state)).
Proof.
  induction texts as [|text rest IH]; intros [content0 usage0 tools0].
  - cbn [map extractContentFromEvents_loop fullContent extractedUsage toolUses].
    change (String.concat "" []) with ""%string. rewrite string_app_nil_r. reflexivity.
  - cbn [map extractContentFromEvents_loop].
    change (extractContentFromEvents_step (mkExtracted content0 usage0 tools0)
              (content_payload text))
      with (Return (mkExtracted (content0 +:+ text) usage0 tools0)).
    cbn [mbind Result_bind]. rewrite IH.
    cbn [fullContent extractedUsage toolUses].
    rewrite string_concat_cons, string_app_assoc. reflexivity.
Qed.

(** The events parseEventStream returns are not [null]. *)
Lemma non_null_Forall events :
  Forall (fun event => is_null event = false) (non_null events).
Proof.
  unfold non_null. apply Forall_forall. intros event Hin.
  apply list_elem_of_filter in Hin as [Hnull _]. exact Hnull.
Qed.

Lemma non_null_texts texts :
  non_null (map content_payload texts) = map content_payload texts.
Proof.
  induction texts as [|text rest IH]; [reflexivity|].
  cbn [map]. unfold non_null in *. rewrite filter_cons_True by reflexivity.
  rewrite IH. reflexivity.
Qed.

Lemma stream_loop_texts messageId requestModel texts : forall st,
  hasStarted st = true ->
  stream_loop messageId requestModel st (map content_payload texts)
  = (map (fun text => content_block_delta (contentBlockIndex st) (TextDelta (JStr text)))
       texts,
     Return st).
Proof.
  induction texts as [|text rest IH]; intros st Hstarted; [reflexivity|].
  destruct st as [index started open inputs outputs drawn].
  cbn in Hstarted. subst started.
  cbn [map stream_loop hasStarted contentBlockIndex hasOpenBlock draws].
  change (convertKiroEventToAnthropic (content_payload text) index open drawn)
    with (Return ([content_block_delta index (TextDelta (JStr text))], drawn)).
  cbv beta iota.
  change (fold_left track [content_block_delta index (TextDelta (JStr text))]
            (with_draws (mkStreamState index true open inputs outputs drawn) drawn))
    with (mkStreamState index true open inputs outputs drawn).
  rewrite IH by reflexivity. reflexivity.
Qed.


Lemma extractor_cases events :
  Forall (fun event => extractor_throws event = false) events
  \/ Exists (fun event => extractor_throws event = true) events.
Proof.
  induction events as [|event rest [IH|IH]]; [left; constructor| |].
  - destruct (extractor_throws event) eqn:Hevent.
    + right. apply Exists_cons_hd. exact Hevent.
    + left. constructor; assumption.
  - right. apply Exists_cons_tl. exact IH.
Qed.


(** X9. extractContentFromEvents throws exactly when one of the events is
    [null] or has a [content] or a [usage] that cannot be converted (an
    object with a key [toString], or an array that holds one), and then a
    TypeError; on every other list of events it returns. *)
Theorem extractContentFromEvents_throws_iff events :
  ((exists extracted, extractContentFromEvents events = Return extracted)
   <-> Forall (fun event => extractor_throws event = false) events)
  /\ ((exists e, extractContentFromEvents events = Throw e)
      <-> Exists (fun event => extractor_throws event = true) events)
  /\ (forall e, extractContentFromEvents events = Throw e -> e = TypeError).
Proof.
  unfold extractContentFromEvents.
  destruct (extractor_cases events) as [Hall|Hex].
  - destruct (extractContentFromEvents_loop_returns events
                (mkExtracted "" (mkUsage (Some (JNum 0)) (JNum 0)) []) Hall)
      as (extracted & Hrun).
    rewrite Hrun. split; [|split].
    + split; [intros _; exact Hall|eauto].
    + split; [intros (e & Habsurd); discriminate Habsurd|].
      intros Hex. exfalso. apply Exists_exists in Hex as (event & Hin & Hthrows).
      rewrite Forall_forall in Hall. rewrite (Hall event Hin) in Hthrows.
      discriminate Hthrows.
    + intros e Habsurd. discriminate Habsurd.
  - rewrite (extractContentFromEvents_loop_throws events _ Hex). split; [|split].
    + split; [intros (extracted & Habsurd); discriminate Habsurd|].
      intros Hall. exfalso. apply Exists_exists in Hex as (event & Hin & Hthrows).
      rewrite Forall_forall in Hall. rewrite (Hall event Hin) in Hthrows.
      discriminate Hthrows.
    + split; [intros _; exact Hex|eauto].
    + intros e He. injection He as <-. reflexivity.
Qed.

(** X10. A [null] payload cannot end the one-shot path: parseEventStream
    drops it, so once the body is parsed sendKiroMessage builds a message
    exactly when the [content] and the [usage] of every event that was
    parsed can be converted. *)
Theorem sendKiroMessage_response_returns model buffer draws0 events :
  parseEventStream buffer = Finished events ->
  (exists message, sendKiroMessage_response model buffer draws0 = Finished message)
  <-> Forall (fun event => ToString_returns_opt (get event "content") = true
                           /\ ToString_returns_opt (get event "usage") = true)
        events.
Proof.
  intros Hparse.
  assert (Forall (fun event => is_null event = false) events) as Hnull.
  { apply parseEventStream_finished_iff in Hparse as (payloads & offset' & _ & ->).
    apply non_null_Forall. }
  unfold sendKiroMessage_response. rewrite Hparse.
  unfold extractContentFromEvents.
  destruct (extractor_cases events) as [Hall|Hex].
  - destruct (extractContentFromEvents_loop_returns events
                (mkExtracted "" (mkUsage (Some (JNum 0)) (JNum 0)) []) Hall)
      as (extracted & ->).
    split.
    + intros _. rewrite Forall_forall in Hall. apply Forall_forall.
      intros event Hin. specialize (Hall event Hin).
      unfold extractor_throws in Hall.
      apply orb_false_elim in Hall as [Hall Husage].
      apply orb_false_elim in Hall as [_ Hcontent].
      split; [destruct (ToString_returns_opt (get event "content"))
             |destruct (ToString_returns_opt (get event "usage"))];
        first [reflexivity|discriminate].
    + intros _.
      destruct (tool_loop (toolUses extracted) _ "end_turn" draws0)
        as [[blocks reason] drawn].
      eauto.
  - rewrite (extractContentFromEvents_loop_throws events _ Hex).
    split; [intros (message & Habsurd); discriminate Habsurd|].
    intros Hall. exfalso.
    apply Exists_exists in Hex as (event & Hin & Hthrows).
    rewrite Forall_forall in Hall, Hnull.
    destruct (Hall event Hin) as [Hcontent Husage].
    unfold extractor_throws in Hthrows.
    rewrite (Hnull event Hin), Hcontent, Husage in Hthrows. discriminate Hthrows.
Qed.

(** X11. Text payloads on the two paths.  For every non-empty list of texts,
    the payloads [{content: text}] make streamKiroResponse emit
    [message_start], the start of text block 0, one text delta at index 0
    for each text, in order, the stop of block 0, the closing
    [message_delta] and [message_stop]; and extractContentFromEvents returns
    the concatenation of the same texts, with a usage of 0 and no tool
    invocation. *)
Theorem text_payloads_both_paths requestModel texts :
  texts <> [] ->
  streamKiroResponse requestModel (map content_payload texts, Finished tt)
  = (message_start (synthetic_id "msg_" 0) requestModel
     :: content_block_start 0 (TextBlock "")
     :: map (fun text => content_block_delta 0 (TextDelta (JStr text))) texts
     ++ [content_block_stop 0;
         message_delta (Some "end_turn"%string) (mkUsage None (JNum 0));
         message_stop],
     Finished tt)
  /\ extractContentFromEvents (map content_payload texts)
     = Return (mkExtracted (String.concat "" texts)
                 (mkUsage (Some (JNum 0)) (JNum 0)) []).
Proof.
  intros Hne. split.
  - destruct texts as [|text rest]; [congruence|].
    unfold streamKiroResponse, initial_state.
    cbn [fst snd map stream_loop hasStarted contentBlockIndex hasOpenBlock draws
         inputTokens outputTokens].
    change (convertKiroEventToAnthropic (content_payload text) 0 true 1)
      with (Return ([content_block_delta 0 (TextDelta (JStr text))], 1%nat)).
    cbv beta iota.
    change (fold_left track [content_block_delta 0 (TextDelta (JStr text))]
              (with_draws (mkStreamState 0 true true (JNum 0) (JNum 0) 1) 1))
      with (mkStreamState 0 true true (JNum 0) (JNum 0) 1).
    rewrite stream_loop_texts by reflexivity. reflexivity.
  - unfold extractContentFromEvents. rewrite extractContentFromEvents_loop_texts.
    reflexivity.
Qed.

(** X12. The one-shot path from the bytes.  When the payloads of the frames
    of a body decode to [{content: text}] objects, sendKiroMessage builds
    the message whose content is one text block with the concatenation of
    the texts, also when it is empty, whose stop reason is [end_turn] and
    whose usage is 0; its id is made from the next identifier drawn.
    Frames without payload and an incomplete frame at the end do not
    count. *)
Theorem sendKiroMessage_response_texts model payloads texts tail draws0 :
  Forall (fun payload => 16 + Z.of_nat (length payload) < 4294967296) payloads ->
  map decodePayload (List.filter has_bytes payloads) = map content_payload texts ->
  complete_at tail 0 = false ->
  sendKiroMessage_response model (concat (map frame_of payloads) ++ tail) draws0
  = Finished (mkMessage (synthetic_id "msg_" draws0) model
                [TextContent (String.concat "" texts)] "end_turn"
                (mkUsage (Some (JNum 0)) (JNum 0))).
Proof.
  intros Hsizes Hdecode Htail.
  unfold sendKiroMessage_response.
  rewrite (whole_frames_sync (map frame_of payloads) tail
             (frames_of_well_delimited payloads Hsizes) Htail).
  rewrite (frames_of_yielded payloads Hsizes), Hdecode, non_null_texts.
  unfold extractContentFromEvents. rewrite extractContentFromEvents_loop_texts.
  cbn [fullContent extractedUsage toolUses tool_loop].
  change ("" +:+ String.concat "" texts) with (String.concat "" texts).
  destruct (String.eqb_spec (String.concat "" texts) "") as [->|Hne]; reflexivity.
Qed.

(** X13. The last usage record wins.  When extractContentFromEvents returns,
    the output-token count it reports is that of the last event that has
    [unit === 'credit'] or a [usage]: the rounding of 1000 times the number
    [usage || 0] stands for, also when that is 0; the events before it do
    not count, and the input-token count is 0. *)
Theorem extractContentFromEvents_last_usage before event after extracted :
  extractContentFromEvents (before ++ event :: after) = Return extracted ->
  usage_bearing event = true ->
  Forall (fun later => usage_bearing later = false) after ->
  exists n,
    ToNumber (or_else (get event "usage") (JNum 0)) = Return n
    /\ extractedUsage extracted
       = mkUsage (Some (JNum 0)) (JNum (Math_round (n * 1000)%float)).
Proof.
  unfold extractContentFromEvents. intros Hrun Hbearing Hafter.
  rewrite extractContentFromEvents_loop_app in Hrun.
  destruct (extractContentFromEvents_loop _ before) as [state1|e] eqn:Hbefore;
    [|discriminate Hrun].
  cbn [mbind Result_bind extractContentFromEvents_loop] in Hrun.
  pose proof (extractContentFromEvents_step_spec state1 event) as Hstep.
  destruct (extractor_throws event).
  { rewrite Hstep in Hrun. discriminate Hrun. }
  destruct Hstep as (state2 & Hstep & _ & _ & Hset).
  rewrite Hstep in Hrun. cbn [mbind Result_bind] in Hrun.
  destruct (Hset Hbearing) as (n & Hn & Husage).
  apply extractContentFromEvents_loop_usage in Hbefore as (Hinput & _).
  apply extractContentFromEvents_loop_usage in Hrun as (_ & Hsame).
  exists n. split; [exact Hn|].
  rewrite (Hsame Hafter), Husage, Hinput. reflexivity.
Qed.


(** ** Model names *)

Lemma mapModelToKiro_cases anthropicModel :
  (exists id, mapModelToKiro anthropicModel = ModelId id /\ id ∈ kiro_ids)
  \/ (mapModelToKiro anthropicModel
      = InheritedProperty (toLowerCase (default ""%string anthropicModel))
      /\ toLowerCase (default ""%string anthropicModel) ∈ Object_prototype_keys
      /\ own_property (toLowerCase (default ""%string anthropicModel)) KIRO_MODEL_MAPPING
         = None).
Proof.
  unfold mapModelToKiro.
  set (lower := toLowerCase (default ""%string anthropicModel)).
  destruct (own_property lower KIRO_MODEL_MAPPING) as [id|] eqn:Hown.
  - left. exists id. split; [reflexivity|].
    unfold KIRO_MODEL_MAPPING in Hown. cbn [own_property] in Hown.
    repeat match type of Hown with
    | (if ?c then _ else _) = _ => destruct c
    end;
    first [discriminate Hown | injection Hown as <-; unfold kiro_ids; repeat constructor].
  - destruct (bool_decide (lower ∈ Object_prototype_keys)) eqn:Hinherited.
    + right. apply bool_decide_eq_true in Hinherited. auto.
    + left.
      repeat match goal with
      | |- context [if ?c then _ else _] => destruct c
      end;
      eexists; (split; [reflexivity|unfold kiro_ids; repeat constructor]).
Qed.

(** X15. mapModelToKiro returns one of the five Kiro model ids, except when
    the lower-cased name is a property that the mapping object inherits
    from [Object.prototype], such as [constructor]: it then returns that
    property, which is no model id. *)
Theorem mapModelToKiro_ids anthropicModel :
  (exists id, mapModelToKiro anthropicModel = ModelId id /\ id ∈ kiro_ids)
  \/ (mapModelToKiro anthropicModel
      = InheritedProperty (toLowerCase (default ""%string anthropicModel))
      /\ toLowerCase (default ""%string anthropicModel) ∈ Object_prototype_keys
      /\ own_property (toLowerCase (default ""%string anthropicModel)) KIRO_MODEL_MAPPING
         = None).
Proof. apply mapModelToKiro_cases. Qed.

(** X16. The ids are stable: when lower-casing leaves the five ids as they
    are, mapModelToKiro maps every id it returns to itself. *)
Theorem mapModelToKiro_stable anthropicModel id :
  Forall (fun known => toLowerCase known = known) kiro_ids ->
  mapModelToKiro anthropicModel = ModelId id ->
  mapModelToKiro (Some id) = ModelId id.
Proof.
  intros Hlower Hid.
  destruct (mapModelToKiro_cases anthropicModel) as [(id' & Hid' & Hin)|(Hid' & _)];
    [|congruence].
  assert (id' = id) as -> by congruence.
  rewrite Forall_forall in Hlower. specialize (Hlower id Hin).
  unfold mapModelToKiro. change (default ""%string (Some id)) with id. rewrite Hlower.
  unfold kiro_ids in Hin.
  repeat (apply elem_of_cons in Hin as [->|Hin]; [reflexivity|]).
  apply elem_of_nil in Hin. destruct Hin.
Qed.

End Bridge.

(** ** Closed examples *)


(** C7 on the frame without payload. *)
Lemma empty_frame_not_emitted_example :
  0 <= 0
  /\ complete_at empty_frame 0 = true
  /\ payloadLength_at empty_frame 0 <= 0
  /\ parseEventMessage sample_decode sample_parse empty_frame 0
     = Return (Some (mkFrame JNull 16))
  /\ parseEventStream sample_decode sample_parse (empty_frame ++ true_frame)
     = Finished [JBool true].
Proof.
  assert (0 <= 0) as H0 by lia.
  assert (complete_at empty_frame 0 = true) as Hc by reflexivity.
  assert (payloadLength_at empty_frame 0 <= 0) as Hlen by (vm_compute; discriminate).
  destruct (empty_frame_not_emitted sample_decode sample_parse empty_frame 0 H0 Hc Hlen)
    as (Hdecoded & _ & _).
  split; [exact H0|]. split; [exact Hc|]. split; [exact Hlen|].
  split; [exact Hdecoded|reflexivity].
Defined.

(** C8 on the frame whose payload is the text [oops]. *)
Lemma non_json_payload_wrapped_example :
  0 <= 0
  /\ complete_at oops_frame 0 = true
  /\ 0 < payloadLength_at oops_frame 0
  /\ parseEventMessage sample_decode sample_parse oops_frame 0
     = Return (Some (mkFrame (JObj [("raw"%string, JStr "oops")]) 20)).
Proof.
  assert (0 <= 0) as H0 by lia.
  assert (complete_at oops_frame 0 = true) as Hc by reflexivity.
  assert (0 < payloadLength_at oops_frame 0) as Hlen by reflexivity.
  destruct (non_json_payload_wrapped sample_decode sample_parse oops_frame 0 SyntaxError
              H0 Hc Hlen eq_refl) as (Hdecoded & _ & _).
  split; [exact H0|]. split; [exact Hc|]. split; [exact Hlen|].
  exact Hdecoded.
Defined.

(** C10 on the frame of [true]. *)
Lemma payload_within_buffer_example :
  0 <= 0
  /\ complete_at true_frame 0 = true
  /\ 0 < payloadLength_at true_frame 0
  /\ payloadOffset_at true_frame 0 + payloadLength_at true_frame 0
     <= byteLength true_frame.
Proof.
  assert (0 <= 0) as H0 by lia.
  assert (complete_at true_frame 0 = true) as Hc by reflexivity.
  assert (0 < payloadLength_at true_frame 0) as Hlen by reflexivity.
  destruct (payload_within_buffer sample_decode sample_parse true_frame 0 H0 Hc Hlen)
    as (_ & Hhi & _).
  split; [exact H0|]. split; [exact Hc|]. split; [exact Hlen|].
  exact Hhi.
Defined.

(** C3, at the input where it fails.  The frame whose payload is the JSON
    text [null] gives no payload in parseEventStream and the payload [null]
    in parseEventStreamAsync, whether it arrives whole or in two chunks. *)
Theorem null_frame_differs :
  parseEventStream sample_decode sample_parse null_frame = Finished []
  /\ parseEventStreamAsync sample_decode sample_parse [null_frame]
     = ([JNull], Finished tt)
  /\ parseEventStreamAsync sample_decode sample_parse
       [take 13 null_frame; drop 13 null_frame]
     = ([JNull], Finished tt).
Proof. apply null_payload_differs. reflexivity. Qed.

(** X4 on three frames and a truncated fourth, in two chunks. *)
Lemma parsers_decode_frames_example :
  Forall well_delimited [empty_frame; true_frame; oops_frame]
  /\ complete_at (take 13 null_frame) 0 = false
  /\ parseEventStream sample_decode sample_parse
       (concat [empty_frame; true_frame; oops_frame] ++ take 13 null_frame)
     = Finished [JBool true; JObj [("raw"%string, JStr "oops")]]
  /\ parseEventStreamAsync sample_decode sample_parse
       [empty_frame ++ take 3 true_frame;
        drop 3 true_frame ++ oops_frame ++ take 13 null_frame]
     = ([JBool true; JObj [("raw"%string, JStr "oops")]], Finished tt).
Proof.
  assert (Forall well_delimited [empty_frame; true_frame; oops_frame]) as Hframes.
  { repeat constructor; vm_compute; congruence. }
  assert (complete_at (take 13 null_frame) 0 = false) as Htail by reflexivity.
  split; [exact Hframes|]. split; [exact Htail|].
  exact (parsers_decode_frames sample_decode sample_parse
           [empty_frame; true_frame; oops_frame] (take 13 null_frame)
           [empty_frame ++ take 3 true_frame;
            drop 3 true_frame ++ oops_frame ++ take 13 null_frame]
           Hframes Htail eq_refl).
Defined.

(** C1 as stated fails on the empty sequence of payloads: the orchestrator
    emits the closing [message_delta] and [message_stop] only, no
    [message_start]. *)
Lemma streamKiroResponse_empty_source :
  streamKiroResponse sample_stringify sample_uuid "claude" ([], Finished tt)
  = ([message_delta (Some "end_turn"%string) (mkUsage None (JNum 0)); message_stop],
     Finished tt)
  /\ count is_message_start
       (fst (streamKiroResponse sample_stringify sample_uuid "claude" ([], Finished tt)))
     = 0%nat.
Proof. split; reflexivity. Qed.

(** On a [null] payload the translator throws after the opening events, and
    nothing closes the sequence. *)
Lemma streamKiroResponse_null_payload :
  streamKiroResponse sample_stringify sample_uuid "claude" ([JNull], Finished tt)
  = ([message_start "msg_123e4567e89b42d3a4564266" "claude";
      content_block_start 0 (TextBlock "")],
     Raised TypeError).
Proof. reflexivity. Qed.

(** The same on a usage record whose [usage] is an object with a key
    [toString]: the message for the log cannot be built. *)
Lemma streamKiroResponse_unprintable_payload :
  streamKiroResponse sample_stringify sample_uuid "claude"
    ([unprintable_payload], Finished tt)
  = ([message_start "msg_123e4567e89b42d3a4564266" "claude";
      content_block_start 0 (TextBlock "")],
     Raised TypeError).
Proof. reflexivity. Qed.

(** A usage record whose values are a number and a string is passed over. *)
Lemma streamKiroResponse_credit_payload :
  streamKiroResponse sample_stringify sample_uuid "claude"
    ([credit_payload 0.5], Finished tt)
  = ([message_start "msg_123e4567e89b42d3a4564266" "claude";
      content_block_start 0 (TextBlock "");
      content_block_stop 0;
      message_delta (Some "end_turn"%string) (mkUsage None (JNum 0));
      message_stop],
     Finished tt).
Proof. reflexivity. Qed.

(** X8 on a text payload followed by the usage record that cannot be logged
    and by a tool invocation that is never reached. *)
Lemma streamKiroResponse_raises_example :
  Forall (fun earlier => translator_throws earlier = false) [content_payload "Hello "]
  /\ translator_throws unprintable_payload = true
  /\ streamKiroResponse sample_stringify sample_uuid "claude"
       ([content_payload "Hello "; unprintable_payload; tool_payload "a" "f"],
        Finished tt)
     = ([message_start "msg_123e4567e89b42d3a4564266" "claude";
         content_block_start 0 (TextBlock "");
         content_block_delta 0 (TextDelta (JStr "Hello "))],
        Raised TypeError).
Proof.
  assert (Forall (fun earlier => translator_throws earlier = false)
            [content_payload "Hello "]) as Hbefore by (repeat constructor).
  assert (translator_throws unprintable_payload = true) as Hthrows by reflexivity.
  split; [exact Hbefore|]. split; [exact Hthrows|].
  destruct (streamKiroResponse_raises sample_stringify sample_uuid "claude"
              [content_payload "Hello "] unprintable_payload [tool_payload "a" "f"]
              (Finished tt) Hbefore Hthrows)
    as (translated & st & Hloop & Hrun & _).
  injection Hloop as <- _. exact Hrun.
Defined.

(** C1, as amended, on a text payload followed by a tool invocation. *)
Lemma streamKiroResponse_well_formed_example :
  [content_payload "Hello "; tool_payload "a" "f"] <> []
  /\ Forall (fun payload => translator_throws payload = false)
       [content_payload "Hello "; tool_payload "a" "f"]
  /\ exists events,
       streamKiroResponse sample_stringify sample_uuid "claude"
         ([content_payload "Hello "; tool_payload "a" "f"], Finished tt)
       = (events, Finished tt)
       /\ blocks_matched events.
Proof.
  assert ([content_payload "Hello "; tool_payload "a" "f"] <> []) as Hne
    by discriminate.
  assert (Forall (fun payload => translator_throws payload = false)
            [content_payload "Hello "; tool_payload "a" "f"]) as Hall
    by (repeat constructor).
  split; [exact Hne|]. split; [exact Hall|].
  destruct (streamKiroResponse_well_formed sample_stringify sample_uuid "claude"
              _ Hne Hall) as (events & Hrun & _ & _ & _ & _ & Hmatched & _).
  exists events. split; assumption.
Defined.

(** C5 as stated fails after a usage of 7 output tokens and a usage of 0
    output tokens: the closing [message_delta] carries 7, and the last
    output-token count observed is 0. *)
Lemma streamKiroResponse_zero_usage_kept :
  exists translated,
    streamKiroResponse sample_stringify sample_uuid "claude"
      ([usage_payload 7; usage_payload 0], Finished tt)
    = (translated
       ++ [content_block_stop 0;
           message_delta (Some "end_turn"%string) (mkUsage None (JNum 7));
           message_stop],
       Finished tt)
    /\ last_output translated = JNum 0
    /\ last_truthy_output translated = JNum 7.
Proof.
  exists [message_start "msg_123e4567e89b42d3a4564266" "claude";
          content_block_start 0 (TextBlock "");
          message_delta None (mkUsage (Some (JNum 0)) (JNum 7));
          message_delta None (mkUsage (Some (JNum 0)) (JNum 0))].
  repeat split; reflexivity.
Qed.

(** C5, as amended, on a usage of 7 output tokens followed by a text
    payload. *)
Lemma streamKiroResponse_closing_example :
  streamKiroResponse sample_stringify sample_uuid "claude"
    ([usage_payload 7; content_payload "x"], Finished tt)
  = ([message_start "msg_123e4567e89b42d3a4564266" "claude";
      content_block_start 0 (TextBlock "");
      message_delta None (mkUsage (Some (JNum 0)) (JNum 7));
      content_block_delta 0 (TextDelta (JStr "x"));
      content_block_stop 0;
      message_delta (Some "end_turn"%string) (mkUsage None (JNum 7));
      message_stop],
     Finished tt)
  /\ exists translated,
       open_after None translated = Some 0
       /\ last_truthy_output translated = JNum 7
       /\ count is_message_stop translated = 0%nat.
Proof.
  split; [reflexivity|].
  destruct (streamKiroResponse_closing sample_stringify sample_uuid "claude"
              [usage_payload 7; content_payload "x"] _ eq_refl)
    as (translated & st & Hloop & _ & _ & _ & Hstop).
  injection Hloop as <- <-.
  refine (ex_intro _ _ (conj _ (conj _ Hstop))); reflexivity.
Defined.

(** X3 on a tool invocation met while block 0 is open. *)
Lemma convertKiroEventToAnthropic_start_example :
  exists events draws',
    convertKiroEventToAnthropic sample_stringify sample_uuid
      (tool_payload "a" "f") 0 true 1
    = Return (events, draws')
    /\ In (content_block_start 1 (ToolUseBlock (JStr "a") (Some (JStr "f")))) events
    /\ 1 = 0 + 1.
Proof.
  eexists _, _. split; [reflexivity|]. split; [cbn; auto|].
  refine (proj1 (convertKiroEventToAnthropic_start sample_stringify sample_uuid
                   (tool_payload "a" "f") 0 true 1 _ _ 1
                   (ToolUseBlock (JStr "a") (Some (JStr "f"))) eq_refl _)).
  cbn. auto.
Defined.

(** X5 on the payloads [true], empty and [x], followed by a truncated
    frame, in three chunks. *)
Lemma framing_round_trip_example :
  Forall (fun payload => 16 + Z.of_nat (length payload) < 4294967296)
    [list_byte_of_string "true"; []; list_byte_of_string "x"]
  /\ complete_at (take 15 null_frame) 0 = false
  /\ parseEventStreamAsync sample_decode sample_parse
       [take 21 (true_frame ++ empty_frame);
        drop 21 (true_frame ++ empty_frame) ++ frame_of (list_byte_of_string "x");
        take 15 null_frame]
     = ([JBool true; JObj [("raw"%string, JStr "x")]], Finished tt).
Proof.
  assert (Forall (fun payload => 16 + Z.of_nat (length payload) < 4294967296)
            [list_byte_of_string "true"; []; list_byte_of_string "x"]) as Hsizes
    by (repeat constructor).
  assert (complete_at (take 15 null_frame) 0 = false) as Htail by reflexivity.
  split; [exact Hsizes|]. split; [exact Htail|].
  exact (proj1 (framing_round_trip sample_decode sample_parse
                  [list_byte_of_string "true"; []; list_byte_of_string "x"]
                  (take 15 null_frame)
                  [take 21 (true_frame ++ empty_frame);
                   drop 21 (true_frame ++ empty_frame)
                     ++ frame_of (list_byte_of_string "x");
                   take 15 null_frame]
                  Hsizes Htail eq_refl)).
Defined.

(** X6 with the first frame split after 30 bytes. *)
Lemma bridge_hello_world_example :
  sample_parse (sample_decode (list_byte_of_string (content_text "Hello ")))
  = Return (content_payload "Hello ")
  /\ streamKiroResponse sample_stringify sample_uuid "claude"
       (parseEventStreamAsync sample_decode sample_parse
          [take 30 (frame_of (list_byte_of_string (content_text "Hello ")));
           drop 30 (frame_of (list_byte_of_string (content_text "Hello ")))
             ++ frame_of (list_byte_of_string (content_text "world"))])
     = ([message_start "msg_123e4567e89b42d3a4564266" "claude";
         content_block_start 0 (TextBlock "");
         content_block_delta 0 (TextDelta (JStr "Hello "));
         content_block_delta 0 (TextDelta (JStr "world"));
         content_block_stop 0;
         message_delta (Some "end_turn"%string) (mkUsage None (JNum 0));
         message_stop],
        Finished tt).
Proof.
  split; [reflexivity|].
  apply (bridge_hello_world sample_decode sample_parse sample_stringify sample_uuid
           "claude"
           (list_byte_of_string (content_text "Hello "))
           (list_byte_of_string (content_text "world")));
    reflexivity.
Defined.

(** X10 on a body with a [null] payload before the payload [true]. *)
Lemma sendKiroMessage_response_returns_example :
  parseEventStream sample_decode sample_parse (null_frame ++ true_frame)
  = Finished [JBool true]
  /\ exists message,
       sendKiroMessage_response sample_decode sample_parse sample_uuid
         sample_Number_toString sample_StringToNumber sample_round
         "claude" (null_frame ++ true_frame) 1
       = Finished message.
Proof.
  assert (parseEventStream sample_decode sample_parse (null_frame ++ true_frame)
          = Finished [JBool true]) as Hparse by reflexivity.
  split; [exact Hparse|].
  apply (proj2 (sendKiroMessage_response_returns sample_decode sample_parse sample_uuid
                  sample_Number_toString sample_StringToNumber sample_round
                  "claude" (null_frame ++ true_frame) 1 [JBool true] Hparse)).
  repeat constructor.
Defined.

(** The streaming path on the same payloads: the translator throws on
    [null]. *)
Lemma streamKiroResponse_null_then_true :
  streamKiroResponse sample_stringify sample_uuid "claude"
    (parseEventStreamAsync sample_decode sample_parse [null_frame ++ true_frame])
  = ([message_start "msg_123e4567e89b42d3a4564266" "claude";
      content_block_start 0 (TextBlock "")],
     Raised TypeError).
Proof. reflexivity. Qed.

(** X11 on the texts of the design document. *)
Lemma text_payloads_both_paths_example :
  ["Hello "; "world"]%string <> []
  /\ extractContentFromEvents sample_Number_toString sample_StringToNumber sample_round
       [content_payload "Hello "; content_payload "world"]
     = Return (mkExtracted "Hello world" (mkUsage (Some (JNum 0)) (JNum 0)) []).
Proof.
  assert (["Hello "; "world"]%string <> []) as Hne by discriminate.
  split; [exact Hne|].
  exact (proj2 (text_payloads_both_paths sample_stringify sample_uuid
                  sample_Number_toString sample_StringToNumber sample_round
                  "claude" ["Hello "; "world"]%string Hne)).
Defined.

(** X12 on the two text frames with a frame without payload between them
    and a truncated frame after them. *)
Lemma sendKiroMessage_response_texts_example :
  Forall (fun payload => 16 + Z.of_nat (length payload) < 4294967296)
    [list_byte_of_string (content_text "Hello "); [];
     list_byte_of_string (content_text "world")]
  /\ complete_at (take 13 null_frame) 0 = false
  /\ sendKiroMessage_response sample_decode sample_parse sample_uuid
       sample_Number_toString sample_StringToNumber sample_round "claude"
       (frame_of (list_byte_of_string (content_text "Hello ")) ++ empty_frame
        ++ frame_of (list_byte_of_string (content_text "world"))
        ++ take 13 null_frame) 1
     = Finished (mkMessage "msg_123e4567e89b42d3a4564266" "claude"
                   [TextContent "Hello world"] "end_turn"
                   (mkUsage (Some (JNum 0)) (JNum 0))).
Proof.
  assert (Forall (fun payload => 16 + Z.of_nat (length payload) < 4294967296)
            [list_byte_of_string (content_text "Hello "); [];
             list_byte_of_string (content_text "world")]) as Hsizes
    by (repeat constructor).
  assert (complete_at (take 13 null_frame) 0 = false) as Htail by reflexivity.
  split; [exact Hsizes|]. split; [exact Htail|].
  exact (sendKiroMessage_response_texts sample_decode sample_parse sample_uuid
           sample_Number_toString sample_StringToNumber sample_round "claude"
           [list_byte_of_string (content_text "Hello "); [];
            list_byte_of_string (content_text "world")]
           ["Hello "; "world"]%string (take 13 null_frame) 1
           Hsizes eq_refl Htail).
Defined.

(** X13 on a usage of 7 credits followed by a usage of 0 credits and a text:
    the count reported is 0, where the streaming path keeps the 7 of an
    earlier token usage. *)
Lemma extractContentFromEvents_last_usage_example :
  extractContentFromEvents sample_Number_toString sample_StringToNumber sample_round
    [credit_payload 7; credit_payload 0; content_payload "x"]
  = Return (mkExtracted "x" (mkUsage (Some (JNum 0)) (JNum 0)) [])
  /\ usage_bearing (credit_payload 0) = true
  /\ exists n,
       ToNumber sample_Number_toString sample_StringToNumber
         (or_else (get (credit_payload 0) "usage") (JNum 0)) = Return n
       /\ mkUsage (Some (JNum 0)) (JNum 0)
          = mkUsage (Some (JNum 0)) (JNum (sample_round (n * 1000)%float)).
Proof.
  assert (Forall (fun later => usage_bearing later = false) [content_payload "x"])
    as Hafter by (repeat constructor).
  split; [reflexivity|]. split; [reflexivity|].
  exact (extractContentFromEvents_last_usage sample_Number_toString
           sample_StringToNumber sample_round
           [credit_payload 7] (credit_payload 0) [content_payload "x"]
           (mkExtracted "x" (mkUsage (Some (JNum 0)) (JNum 0)) [])
           eq_refl eq_refl Hafter).
Defined.


(** On the name [Constructor] mapModelToKiro returns the constructor the
    mapping object inherits. *)
Lemma mapModelToKiro_constructor :
  mapModelToKiro sample_toLowerCase (Some "Constructor"%string)
  = InheritedProperty "constructor".
Proof. reflexivity. Qed.

(** X16 on a name in capitals that is mapped to [claude-sonnet-4.5]. *)
Lemma mapModelToKiro_stable_example :
  Forall (fun known => sample_toLowerCase known = known) kiro_ids
  /\ mapModelToKiro sample_toLowerCase (Some "Claude-Sonnet-4-5-Thinking"%string)
     = ModelId "claude-sonnet-4.5"
  /\ mapModelToKiro sample_toLowerCase (Some "claude-sonnet-4.5"%string)
     = ModelId "claude-sonnet-4.5".
Proof.
  assert (Forall (fun known => sample_toLowerCase known = known) kiro_ids) as Hlower
    by (repeat constructor).
  split; [exact Hlower|]. split; [reflexivity|].
  exact (mapModelToKiro_stable sample_toLowerCase
           (Some "Claude-Sonnet-4-5-Thinking"%string) "claude-sonnet-4.5"
           Hlower eq_refl).
Defined.
